(** * supereeg: the correlation model, the subject record and the batch driver

    A shallow embedding of
      - [supereeg/model.py]   (class [Model]: construction, [update], [predict], [plot]),
      - [superEEG/brain.py]   (class [Brain]: construction),
      - [code/recon_with_model.py] (the driver [main]),
    together with the properties the specification states about them.

    numpy arrays of float64 are lists of rows of IEEE-754 binary64 numbers
    (Rocq's primitive floats).  Arrays that the code shares and updates in
    place live in a store and are named by references. *)

From Stdlib Require Import PrimFloat.
From stdpp Require Import gmap strings list.

Open Scope float_scope.
Open Scope nat_scope.

(** ** Python exceptions and the error monad *)

Inductive exn : Type :=
  | AssertionError (msg : string)
  | ValueError
  | IndexError
  | AttributeError
  | ZeroDivisionError
  | IOError
  | OSError.

Inductive result (A : Type) : Type :=
  | Ok (a : A)
  | Raise (e : exn).
Arguments Ok {A} a.
Arguments Raise {A} e.

#[global] Instance result_ret : MRet result := λ A a, Ok a.
#[global] Instance result_bind : MBind result := λ A B f r,
  match r with
  | Ok a => f a
  | Raise e => Raise e
  end.

(** ** numpy: two-dimensional float64 arrays *)

Abbreviation ndarray := (list (list float)).

Module Np.

(** [A[i, j]], when the index is in range *)
Definition cell (A : ndarray) (i j : nat) : option float :=
  A !! i ≫= (.!! j).

(** the lengths of the rows: two arrays have the same shape exactly when
    these agree *)
Definition row_lengths (A : ndarray) : list nat := length <$> A.

Definition same_shape (A B : ndarray) : bool :=
  bool_decide (row_lengths A = row_lengths B).

(** an [n] by [m] array *)
Definition has_shape (n m : nat) (A : ndarray) : Prop :=
  row_lengths A = replicate n m.

(** [np.zeros((n, m))] *)
Definition zeros (n m : nat) : ndarray := replicate n (replicate m 0%float).

Definition map2 (f : float → float → float) (A B : ndarray) : ndarray :=
  zip_with (zip_with f) A B.

(** An element-wise binary operation.  numpy rejects operands whose shapes
    cannot be brought together; operands of equal shape are the only ones
    the model combines, every other pair is reported as [ValueError]
    (broadcasting of unequal shapes is not part of the model). *)
Definition elementwise (f : float → float → float) (A B : ndarray)
  : result ndarray :=
  if same_shape A B then Ok (map2 f A B) else Raise ValueError.

(** [np.add], [np.divide] *)
Definition add : ndarray → ndarray → result ndarray := elementwise PrimFloat.add.
Definition divide : ndarray → ndarray → result ndarray := elementwise PrimFloat.div.

(** [np.nansum] first replaces every NaN by zero *)
Definition nan_to_zero (x : float) : float :=
  if PrimFloat.is_nan x then 0%float else x.

(** [np.nansum(np.dstack((A, B)), 2)]: [dstack] wants equal shapes, the sum
    along the new axis adds the two NaN-free values of every cell *)
Definition nansum2 (a b : float) : float :=
  (nan_to_zero a + nan_to_zero b)%float.

Definition nansum_dstack : ndarray → ndarray → result ndarray :=
  elementwise nansum2.

(** [D[np.isnan(N)] = v]: the boolean mask must have the shape of [D] *)
Definition mask_assign_cell (v d n : float) : float :=
  if PrimFloat.is_nan n then v else d.

Definition assign_where_isnan (D N : ndarray) (v : float) : result ndarray :=
  if same_shape D N then Ok (map2 (mask_assign_cell v) D N)
  else Raise IndexError.

(** [np.fill_diagonal(A, v)]: the cells [A[i, i]] that exist are overwritten *)
Definition fill_diagonal (A : ndarray) (v : float) : ndarray :=
  imap (λ i row, <[i := v]> row) A.

(** applying a scalar function to every cell *)
Definition map_cells (f : float → float) (A : ndarray) : ndarray :=
  fmap (M:=list) (fmap (M:=list) f) A.

(** [l.iloc[inds]] and [A[inds, :]]: selection of rows by position; a
    position out of range raises [IndexError] *)
Definition iloc {A : Type} (l : list A) (inds : list nat) : result (list A) :=
  match mapM (l !!.) inds with
  | Some r => Ok r
  | None => Raise IndexError
  end.

(** [A[:, inds]]: the same selection on the columns *)
Definition select_cols (A : ndarray) (inds : list nat) : result ndarray :=
  match mapM (λ row : list float, mapM (row !!.) inds) A with
  | Some r => Ok r
  | None => Raise IndexError
  end.

(** [A[:, inds][inds, :]] *)
Definition permute (A : ndarray) (inds : list nat) : result ndarray :=
  C ← select_cols A inds; iloc C inds.

(** [C[:n, :n] = B] with [n = B.shape[0]]: the leading [n] by [n] block of
    [C] is overwritten by [B], which must have that shape *)
Definition set_leading_block (C B : ndarray) : result ndarray :=
  let n := length B in
  if bool_decide (n ≤ length C ∧ Forall (λ r : list float, n ≤ length r) (take n C)
                  ∧ Forall (λ r : list float, length r = n) B)
  then Ok (zip_with (λ rc rb : list float, rb ++ drop n rc) (take n C) B ++ drop n C)
  else Raise ValueError.

(** [np.hstack((A, B))] for two-dimensional arrays: the row counts must agree *)
Definition hstack (A B : ndarray) : result ndarray :=
  if decide (length A = length B) then Ok (zip_with app A B)
  else Raise ValueError.

(** a float that compares equal to zero: [0.0] or [-0.0] *)
Definition is_zero (x : float) : Prop := x = 0%float ∨ x = (-0)%float.

Definition symmetric (A : ndarray) : Prop :=
  ∀ i j, cell A i j = cell A j i.

Definition zero_diagonal (A : ndarray) : Prop :=
  ∀ i x, cell A i i = Some x → is_zero x.

End Np.

(** ** supereeg/model.py *)

Module Supereeg.

(** [match_threshold]: ['auto'] or a number *)
Inductive match_threshold : Type :=
  | Auto
  | Threshold (t : float).

(** The [Brain] objects that [model.py] handles: the attributes it reads and
    the keyword arguments it constructs the result with.  A location is a
    row of coordinates; the model compares locations for equality only, so
    the type of locations is left open. *)
Module Brain.
Record t (Loc : Type) : Type := mk {
  data : ndarray;            (* samples by channels *)
  locs : list Loc;           (* one row per channel *)
  sessions : list Z;
  sample_rate : list float;
  label : list string
}.
Arguments mk {Loc} _ _ _ _ _.
Arguments data {Loc} _.
Arguments locs {Loc} _.
Arguments sessions {Loc} _.
Arguments sample_rate {Loc} _.
Arguments label {Loc} _.
End Brain.

(** A reference to an array of the store *)
Abbreviation ref := positive.

(** The store: the numpy arrays that [Model] instances hold *)
Abbreviation heap := (gmap positive ndarray).

(** A [Model] instance.  [numerator] and [denominator] name arrays of the
    store.  No method assigns an attribute of an existing instance
    (attributes are set in [__init__] only), so an instance is a value. *)
Record Model (Loc : Type) : Type := mkModel {
  numerator : ref;
  denominator : ref;
  locs : list Loc;
  n_subs : Z
}.
Arguments mkModel {Loc} _ _ _ _.
Arguments numerator {Loc} _.
Arguments denominator {Loc} _.
Arguments locs {Loc} _.
Arguments n_subs {Loc} _.

(** [self.n_locs = self.locs.shape[0]] *)
Definition n_locs {Loc} (self : Model Loc) : nat := length (locs self).

(** *** The helpers imported from [supereeg.helpers]

    [model.py] imports these functions; their code is not part of the
    sources at hand, so they are parameters of the development.  Each is a
    function of its arguments (it raises nothing and writes to no array of
    the store); [near_neighbor] is handed the model and can read its
    attributes.  [r2z] and [z2r] are the Fisher transform and its inverse on
    one number; the model applies them to every cell.  The arrays that the
    helpers return are new ones, shared with nothing. *)
Class Helpers (Loc : Type) : Type := {
  filter_elecs : Brain.t Loc → string → float → Brain.t Loc;
  get_corrmat : Brain.t Loc → ndarray;
  r2z : float → float;
  z2r : float → float;
  rbf : list Loc → list Loc → ndarray;
  expand_corrmat_fit : ndarray → ndarray → ndarray * ndarray;
  expand_corrmat_predict : ndarray → ndarray → ndarray * ndarray;
  near_neighbor : Brain.t Loc → Model Loc → match_threshold → Brain.t Loc;
  timeseries_recon : Brain.t Loc → ndarray → ndarray;
  zscore : ndarray → ndarray;
  load_nifti : option string → list Loc
}.

(** *** Computations on the store *)

Definition M (A : Type) : Type := heap → heap * result A.

#[global] Instance M_ret : MRet M := λ A a h, (h, Ok a).
#[global] Instance M_bind : MBind M := λ A B f c h,
  match c h with
  | (h', Ok a) => f a h'
  | (h', Raise e) => (h', Raise e)
  end.

Definition lift {A} (r : result A) : M A := λ h, (h, r).

(** a new array object *)
Definition alloc (v : ndarray) : M ref := λ h,
  let a := fresh (dom h) in (<[a := v]> h, Ok a).

(** the contents of an array; every reference a program holds names an
    array of the store (a name the store lacks reads as the empty array) *)
Definition read (a : ref) : M ndarray := λ h, (h, Ok (default [] (h !! a))).

(** overwriting an array in place *)
Definition write (a : ref) (v : ndarray) : M unit := λ h, (<[a := v]> h, Ok ()).

(** *** Python and numpy on index lists *)

(** [all(mask)], [any(mask)], [sum(mask)] on a list of booleans *)
Definition all_ (mask : list bool) : bool := forallb id mask.
Definition any_ (mask : list bool) : bool := existsb id mask.
Definition sum_ (mask : list bool) : nat :=
  sum_list ((λ b : bool, if b then 1 else 0) <$> mask).

(** [np.where(mask)[0]]: the positions of the true entries, ascending *)
Definition where_ (mask : list bool) : list nat :=
  filter (λ i, mask !! i = Some true) (seq 0 (length mask)).

(** [sorted(set(range(n)) - set(js))] *)
Definition sorted_range_minus (n : nat) (js : list nat) : list nat :=
  filter (λ i, i ∉ js) (seq 0 n).

(** [sorted(set(js))]: the distinct members of [js], ascending *)
Definition sorted_set (js : list nat) : list nat :=
  filter (λ i, i ∈ js) (seq 0 (S (max_list js))).

(** The outcome of the alignment of a subject with the model (the part of
    [predict] between the overlap count and the conversion back to
    correlations): the aligned matrix, the returned location ordering, the
    labels, and the subject with its channels possibly reordered.
    [axis_locs] records the location that each row and column of the aligned
    matrix stands for: the model locations in the order of [perm_inds] where
    the matrix is permuted, and the target locations handed to [rbf] where
    it is expanded (the rows of a weight matrix are its target set). *)
Record alignment (Loc : Type) : Type := mkAlignment {
  model_corrmat_x : ndarray;
  axis_locs : list Loc;
  perm_locs : list Loc;
  loc_label : list string;
  aligned_bo : Brain.t Loc
}.
Arguments mkAlignment {Loc} _ _ _ _ _.
Arguments model_corrmat_x {Loc} _.
Arguments axis_locs {Loc} _.
Arguments perm_locs {Loc} _.
Arguments loc_label {Loc} _.
Arguments aligned_bo {Loc} _.

(** [s[-n:]] for a positive [n]: the last [n] characters, or all of [s] when
    it is shorter *)
Definition py_suffix (n : nat) (s : string) : string :=
  String.string_of_list_ascii
    (drop (length (String.list_ascii_of_string s) - n) (String.list_ascii_of_string s)).

(** the file name of [Model.save]: [if fname[-3:] != '.mo': fname += '.mo'] *)
Definition save_name (fname : string) : string :=
  if decide (py_suffix 3 fname ≠ ".mo"%string) then fname +:+ ".mo" else fname.

Section model.
Context {Loc : Type} `{EqDecision Loc} `{Helpers Loc}.

(** the subject's contribution: [expand_corrmat_fit(r2z(C), rbf(locs, bo.locs))] *)
Definition expand_subject (model_locs : list Loc) (sub_corrmat : ndarray)
    (bo : Brain.t Loc) : ndarray * ndarray :=
  let sub_corrmat_z := Np.map_cells r2z sub_corrmat in
  let sub_rbf_weights := rbf model_locs (Brain.locs bo) in
  expand_corrmat_fit sub_corrmat_z sub_rbf_weights.

(** the loop of [__init__] over the brain objects; [numerator] and
    [denominator] are the local arrays, grown with [+=] *)
Fixpoint fit_loop (model_locs : list Loc) (measure : string) (threshold : float)
    (data : list (Brain.t Loc)) (numerator denominator : ndarray)
    : result (ndarray * ndarray) :=
  match data with
  | [] => Ok (numerator, denominator)
  | bo :: data =>
      let bo := filter_elecs bo measure threshold in
      let sub_corrmat := get_corrmat bo in
      let sub_corrmat := Np.fill_diagonal sub_corrmat 0 in
      let '(num_corrmat_x, denom_corrmat_x) :=
        expand_subject model_locs sub_corrmat bo in
      numerator ← Np.add numerator num_corrmat_x;
      denominator ← Np.add denominator denom_corrmat_x;
      fit_loop model_locs measure threshold data numerator denominator
  end.

(** [Model.__init__].  [data] is the list of brain objects (a single
    object is wrapped into a list by the code; on the shortcut path the
    data is not read).  The date and the meta dictionary are left out. *)
Definition __init__ (data : list (Brain.t Loc)) (locs : option (list Loc))
    (template : option string) (measure : string) (threshold : float)
    (numerator denominator : option ref) (n_subs : option Z) : M (Model Loc) :=
  match numerator, denominator, locs, n_subs with
  | Some numerator, Some denominator, Some locs, Some n_subs =>
      mret (mkModel numerator denominator locs n_subs)
  | _, _, _, _ =>
      let locs := match locs with
                  | None => load_nifti template
                  | Some locs => locs
                  end in
      let numerator := Np.zeros (length locs) (length locs) in
      let denominator := Np.zeros (length locs) (length locs) in
      nd ← lift (fit_loop locs measure threshold data numerator denominator);
      numerator ← alloc nd.1;
      denominator ← alloc nd.2;
      mret (mkModel numerator denominator locs (Z.of_nat (length data)))
  end.

(** [copy.deepcopy(self)]: a new instance with copies of both arrays *)
Definition deepcopy (self : Model Loc) : M (Model Loc) :=
  num ← read (numerator self);
  den ← read (denominator self);
  numerator ← alloc num;
  denominator ← alloc den;
  mret (mkModel numerator denominator (locs self) (n_subs self)).

(** the loop of [update]: [numerator] is rebound to a new array in every
    round, [denominator] is updated in place *)
Fixpoint update_loop (m : Model Loc) (measure : string) (threshold : float)
    (data : list (Brain.t Loc)) (numerator denominator : ref) (n_subs : Z)
    : M (ref * Z) :=
  match data with
  | [] => mret (numerator, n_subs)
  | bo :: data =>
      let bo := filter_elecs bo measure threshold in
      let sub_corrmat := get_corrmat bo in
      let '(num_corrmat_x, denom_corrmat_x) :=
        expand_subject (locs m) sub_corrmat bo in
      denom_corrmat_x ← lift (Np.assign_where_isnan denom_corrmat_x num_corrmat_x 0);
      old ← read numerator;
      new ← lift (Np.nansum_dstack old num_corrmat_x);
      numerator ← alloc new;
      den ← read denominator;
      den ← lift (Np.add den denom_corrmat_x);
      _ ← write denominator den;
      update_loop m measure threshold data numerator denominator (n_subs + 1)%Z
  end.

(** [Model.update] *)
Definition update (self : Model Loc) (data : list (Brain.t Loc))
    (measure : string) (threshold : float) : M (Model Loc) :=
  m ← deepcopy self;
  r ← update_loop m measure threshold data (numerator m) (denominator m) (n_subs m);
  __init__ [] (Some (locs m)) None "kurtosis" 10
           (Some r.1) (Some (denominator m)) (Some r.2).

(** Modelled from the spec: [helpers.count_overlapping] is not part of the
    sources at hand.  Section 4.4 has the aligner determine, for each
    reference location, whether it coincides by coordinate equality with
    a subject electrode; the line that the call replaced (kept as a
    comment in [predict]) computes the same mask. *)
Definition count_overlapping (self : Model Loc) (bo : Brain.t Loc) : list bool :=
  (λ x, bool_decide (x ∈ Brain.locs bo)) <$> locs self.

(** The alignment inside [predict]: from the overlap count to the labels.
    In the branch of the partial overlap the code reorders the channels of
    the subject in place; [aligned_bo] is the subject after the alignment.
    The number of labels of the second branch is a difference of lengths,
    which is not negative there. *)
Definition align (self : Model Loc) (bo : Brain.t Loc) (model_corrmat_x : ndarray)
    : result (alignment Loc) :=
  let bool_mask := count_overlapping self bo in
  if all_ bool_mask
  then Raise (AssertionError "model is a complete subset of patient locations")
  else
  let joint_model_inds := where_ bool_mask in
  if negb (any_ bool_mask) then
    let model_rbf_weights := rbf (locs self ++ Brain.locs bo) (locs self) in
    let '(num_corrmat_x, denom_corrmat_x) :=
      expand_corrmat_predict model_corrmat_x model_rbf_weights in
    model_corrmat_x ← Np.divide num_corrmat_x denom_corrmat_x;
    let loc_label := replicate (length (locs self)) "reconstructed"%string
                     ++ replicate (length (Brain.locs bo)) "observed"%string in
    let perm_locs := locs self ++ Brain.locs bo in
    Ok (mkAlignment model_corrmat_x (locs self ++ Brain.locs bo)
                    perm_locs loc_label bo)
  else if decide (sum_ bool_mask = length (Brain.locs bo)) then
    let perm_inds := sorted_range_minus (length (locs self)) joint_model_inds
                     ++ sorted_set joint_model_inds in
    model_corrmat_x ← Np.permute model_corrmat_x perm_inds;
    let loc_label :=
      replicate (length (locs self) - length (Brain.locs bo)) "reconstructed"%string
      ++ replicate (length (Brain.locs bo)) "observed"%string in
    perm_locs ← Np.iloc (locs self) perm_inds;
    Ok (mkAlignment model_corrmat_x perm_locs perm_locs loc_label bo)
  else
    let bool_bo_mask := (λ x, bool_decide (x ∈ locs self)) <$> Brain.locs bo in
    let disjoint_bo_inds := where_ (negb <$> bool_bo_mask) in
    let perm_inds := sorted_range_minus (length (locs self)) joint_model_inds
                     ++ sorted_set joint_model_inds in
    model_permuted ← Np.permute model_corrmat_x perm_inds;
    model_locs_permuted ← Np.iloc (locs self) perm_inds;
    let bo_perm_inds :=
      sorted_range_minus (length (Brain.locs bo)) disjoint_bo_inds
      ++ sorted_set disjoint_bo_inds in
    sub_bo ← Np.iloc (Brain.locs bo) disjoint_bo_inds;
    bo_locs ← Np.iloc (Brain.locs bo) bo_perm_inds;
    (* [bo.data[bo_perm_inds]]: the columns of the frame are labelled 0, 1, ... *)
    bo_data ← Np.select_cols (Brain.data bo) bo_perm_inds;
    let bo := Brain.mk bo_data bo_locs (Brain.sessions bo)
                       (Brain.sample_rate bo) (Brain.label bo) in
    let perm_inds_unknown :=
      sorted_range_minus (length (locs self)) joint_model_inds in
    let model_rbf_weights :=
      rbf (model_locs_permuted ++ sub_bo) model_locs_permuted in
    let '(num_corrmat_x, denom_corrmat_x) :=
      expand_corrmat_predict model_permuted model_rbf_weights in
    model_corrmat_x ← Np.divide num_corrmat_x denom_corrmat_x;
    model_corrmat_x ← Np.set_leading_block model_corrmat_x model_permuted;
    unknown_locs ← Np.iloc (locs self) perm_inds_unknown;
    let loc_label := replicate (length unknown_locs) "reconstructed"%string
                     ++ replicate (length (Brain.locs bo)) "observed"%string in
    let perm_locs := unknown_locs ++ Brain.locs bo in
    Ok (mkAlignment model_corrmat_x (model_locs_permuted ++ sub_bo)
                    perm_locs loc_label bo).

(** the end of [predict]: back to correlations, reconstruction, and the
    new brain object *)
Definition reconstruct (al : alignment Loc) : result (Brain.t Loc) :=
  let bo := aligned_bo al in
  let model_corrmat_x := Np.map_cells z2r (model_corrmat_x al) in
  let model_corrmat_x := Np.fill_diagonal model_corrmat_x 0 in
  let reconstructed := timeseries_recon bo model_corrmat_x in
  activations ← Np.hstack reconstructed (zscore (Brain.data bo));
  Ok (Brain.mk activations (perm_locs al) (Brain.sessions bo)
               (Brain.sample_rate bo) (loc_label al)).

(** the current estimate that [predict] starts from *)
Definition model_estimate (self : Model Loc) (bo : Brain.t Loc)
    (force_update : bool) : M ndarray :=
  if force_update then
    let sub_corrmat := get_corrmat bo in
    let sub_corrmat := Np.fill_diagonal sub_corrmat 0 in
    let '(num_corrmat_x, denom_corrmat_x) :=
      expand_subject (locs self) sub_corrmat bo in
    num ← read (numerator self);
    num ← lift (Np.add num num_corrmat_x);
    den ← read (denominator self);
    den ← lift (Np.add den denom_corrmat_x);
    lift (Np.divide num den)
  else
    num ← read (numerator self);
    den ← read (denominator self);
    lift (Np.divide num den).

(** [Model.predict] *)
Definition predict (self : Model Loc) (bo : Brain.t Loc) (nearest_neighbor : bool)
    (match_threshold : match_threshold) (force_update : bool) (kthreshold : float)
    : M (Brain.t Loc) :=
  let bo := if nearest_neighbor then near_neighbor bo self match_threshold else bo in
  let bo := filter_elecs bo "kurtosis" kthreshold in
  model_corrmat_x ← model_estimate self bo force_update;
  al ← lift (align self bo model_corrmat_x);
  lift (reconstruct al).

(** [Model.plot]: the matrix handed to [sns.heatmap] *)
Definition plot (self : Model Loc) : M ndarray :=
  num ← read (numerator self);
  den ← read (denominator self);
  corr_mat ← lift (Np.divide num den);
  let corr_mat := Np.map_cells z2r corr_mat in
  mret (Np.fill_diagonal corr_mat 1).

(** A sequence of calls of [update], each on the model the previous one
    returned *)
Fixpoint update_all (self : Model Loc)
    (calls : list (list (Brain.t Loc) * string * float)) : M (Model Loc) :=
  match calls with
  | [] => mret self
  | (data, measure, threshold) :: calls =>
      m ← update self data measure threshold;
      update_all m calls
  end.

(** *** The arrays behind the loop of [update]

    What one round of the loop computes from the contents of the two arrays,
    without the store: used to state what the loop leaves in the store. *)
Definition update_round (model_locs : list Loc) (measure : string) (threshold : float)
    (bo : Brain.t Loc) (numerator denominator : ndarray) : result (ndarray * ndarray) :=
  let bo := filter_elecs bo measure threshold in
  let sub_corrmat := get_corrmat bo in
  let '(num_corrmat_x, denom_corrmat_x) := expand_subject model_locs sub_corrmat bo in
  denom_corrmat_x ← Np.assign_where_isnan denom_corrmat_x num_corrmat_x 0;
  numerator ← Np.nansum_dstack numerator num_corrmat_x;
  denominator ← Np.add denominator denom_corrmat_x;
  Ok (numerator, denominator).

Fixpoint update_rounds (model_locs : list Loc) (measure : string) (threshold : float)
    (data : list (Brain.t Loc)) (numerator denominator : ndarray)
    : result (ndarray * ndarray) :=
  match data with
  | [] => Ok (numerator, denominator)
  | bo :: data =>
      nd ← update_round model_locs measure threshold bo numerator denominator;
      update_rounds model_locs measure threshold data nd.1 nd.2
  end.

(** *** What the model relies on

    The arrays of a model are square, of the size of its location set. *)
Definition model_wf (h : heap) (self : Model Loc) : Prop :=
  ∃ num den,
    h !! numerator self = Some num ∧ h !! denominator self = Some den ∧
    Np.has_shape (n_locs self) (n_locs self) num ∧
    Np.has_shape (n_locs self) (n_locs self) den.

(** The invariant of the model: both arrays are square of the size of the
    location set, symmetric, with a zero diagonal. *)
Definition invariant_array (n : nat) (A : ndarray) : Prop :=
  Np.has_shape n n A ∧ Np.symmetric A ∧ Np.zero_diagonal A.

Definition model_invariant (h : heap) (self : Model Loc) : Prop :=
  ∃ num den,
    h !! numerator self = Some num ∧ h !! denominator self = Some den ∧
    invariant_array (n_locs self) num ∧ invariant_array (n_locs self) den.

(** The shapes of what the helpers of [__init__] and [update] return: the
    weights have a row per target location, and the expanded matrices are
    square of that size. *)
Class HelpersShape : Prop := {
  rbf_rows : ∀ l1 l2, length (rbf l1 l2) = length l1;
  expand_fit_shape : ∀ C W,
    Np.has_shape (length W) (length W) (expand_corrmat_fit C W).1 ∧
    Np.has_shape (length W) (length W) (expand_corrmat_fit C W).2
}.

(** The same for the helpers of the reconstruction: the expansion is square
    of the size of the target set, and the reconstruction and the z-scoring
    keep the samples. *)
Class HelpersPredictShape : Prop := {
  expand_predict_shape : ∀ C W,
    Np.has_shape (length W) (length W) (expand_corrmat_predict C W).1 ∧
    Np.has_shape (length W) (length W) (expand_corrmat_predict C W).2;
  timeseries_recon_rows : ∀ bo K,
    length (timeseries_recon bo K) = length (Brain.data bo);
  zscore_rows : ∀ A, length (zscore A) = length A
}.

(** The contributions of a subject are symmetric, with a zero diagonal *)
Class HelpersSymmetric : Prop := {
  expand_fit_symmetric : ∀ C W,
    Np.symmetric (expand_corrmat_fit C W).1 ∧
    Np.symmetric (expand_corrmat_fit C W).2;
  expand_fit_zero_diagonal : ∀ C W,
    Np.zero_diagonal (expand_corrmat_fit C W).1 ∧
    Np.zero_diagonal (expand_corrmat_fit C W).2
}.

(** the subject as [predict] aligns it: snapped to the model, then filtered *)
Definition prepared (self : Model Loc) (bo : Brain.t Loc) (nearest_neighbor : bool)
    (match_threshold : match_threshold) (kthreshold : float) : Brain.t Loc :=
  let bo := if nearest_neighbor then near_neighbor bo self match_threshold else bo in
  filter_elecs bo "kurtosis" kthreshold.

(** the model locations that the subject lacks, and those it has, in the
    order of the model *)
Definition unknown_of (bl l : list Loc) : list Loc :=
  filter (λ x, ¬ bool_decide (x ∈ bl) = true) l.
Definition joint_of (bl l : list Loc) : list Loc :=
  filter (λ x, bool_decide (x ∈ bl) = true) l.

(** the two labels *)
Definition is_label (s : string) : Prop :=
  s = "observed"%string ∨ s = "reconstructed"%string.

(** the known block of an aligned matrix: the locations of its trailing rows
    and columns, as many as the subject has channels *)
Definition known_block (al : alignment Loc) : list Loc :=
  drop (length (axis_locs al) - length (Brain.locs (aligned_bo al))) (axis_locs al).

(** the locations of the subject that the model has, and those it lacks, in
    the order of the subject *)
Definition subject_inside (l bl : list Loc) : list Loc := filter (λ x, x ∈ l) bl.
Definition subject_outside (l bl : list Loc) : list Loc := filter (λ x, x ∉ l) bl.

(** *** [Model.save] *)

(** the dictionary that [save] hands to [dd.io.save] (the meta dictionary and
    the date are left out, as they are in the model) *)
Record saved_model : Type := mkSaved {
  mo_numerator : ndarray;
  mo_denominator : ndarray;
  mo_locs : list Loc;
  mo_n_subs : Z
}.

(** [Model.save]: the file name and the dictionary handed to [dd.io.save] *)
Definition save (self : Model Loc) (fname : string) : M (string * saved_model) :=
  num ← read (numerator self);
  den ← read (denominator self);
  mret (save_name fname, mkSaved num den (locs self) (n_subs self)).

End model.

End Supereeg.

(** ** superEEG/brain.py *)

Module SuperEEG.

(** a session identifier: a string or an integer *)
Inductive session_id : Type :=
  | SessionInt (z : Z)
  | SessionStr (s : string).

#[global] Instance session_id_eq_dec : EqDecision session_id.
Proof. solve_decision. Defined.

(** the [sessions] argument: a string or an integer, [None], a python list,
    or an array *)
Inductive sessions_arg : Type :=
  | SessionsOne (s : session_id)
  | SessionsNone
  | SessionsList (l : list session_id)
  | SessionsArray (a : list session_id).

(** the [sample_rate] argument: a list, [None], or a number *)
Inductive sample_rate_arg : Type :=
  | RateList (l : list float)
  | RateNone
  | RateNumber (r : float).

(** A [Brain] object: the attributes that [__init__] sets (the creation date
    and the meta dictionary are left out).  The data frames [data] and [locs]
    are lists of rows. *)
Record Brain : Type := mkBrain {
  data : ndarray;
  locs : ndarray;
  sessions : list session_id;
  sample_rate : list float;
  n_elecs : nat;
  n_secs : float;
  n_sessions : nat;
  kurtosis : list float
}.

(** [df.shape]: a frame without rows has no columns here *)
Definition shape0 (df : ndarray) : nat := length df.
Definition shape1 (df : ndarray) : nat := length (hd [] df).

(** [pd.DataFrame(data)]; [None] gives the empty frame *)
Definition DataFrame (data : option ndarray) : ndarray := default [] data.

(** [pd.DataFrame(locs, columns=['x', 'y', 'z'])]: the rows must have three
    entries *)
Definition DataFrame_xyz (locs : option ndarray) : result ndarray :=
  match locs with
  | None => Ok []
  | Some rows =>
      if bool_decide (Forall (λ row : list float, length row = 3) rows)
      then Ok rows else Raise ValueError
  end.

(** an integer as a float *)
Fixpoint float_of_nat (n : nat) : float :=
  match n with
  | O => 0%float
  | S n => (float_of_nat n + 1)%float
  end.

(** [n / r] on python numbers, [n] an integer and [r] a float *)
Definition true_divide (n : nat) (r : float) : result float :=
  if PrimFloat.eqb r 0%float then Raise ZeroDivisionError
  else Ok (float_of_nat n / r)%float.

(** [l[0]] *)
Definition first {A} (l : list A) : result A :=
  match l with
  | x :: _ => Ok x
  | [] => Raise IndexError
  end.

(** the block "session": a string or an integer stands for every sample,
    [None] for session 1; anything else is flattened with [ravel], which a
    python list does not have *)
Definition session_series (n_samples : nat) (sessions : sessions_arg)
    : result (list session_id) :=
  match sessions with
  | SessionsOne s => Ok (replicate n_samples s)
  | SessionsNone => Ok (replicate n_samples (SessionInt 1))
  | SessionsList _ => Raise AttributeError
  | SessionsArray a => Ok a
  end.

(** the block "sample rate": the warnings issued and the list of rates.  (The
    branch for a python list of sessions is never reached: such a list has
    raised in the block before.) *)
Definition sample_rates (self_sessions : list session_id)
    (sample_rate : sample_rate_arg) : list string * list float :=
  match sample_rate with
  | RateList l => ([], l)
  | RateNone =>
      (["No sample rate given.  Setting sample rate to 1000"%string],
       (λ _, 1000%float) <$> self_sessions)
  | RateNumber r => ([], [r])
  end.

Section brain.

(** [kurt_vals] of [_helpers.stats], whose code is not part of the sources at
    hand: it is given the object under construction (its [kurtosis] is not
    set yet, here the empty list) and returns the scores of the channels. *)
Variable kurt_vals : Brain → list float.

(** [Brain.__init__]: the warnings issued, and the object or the exception.
    The division for [n_secs] is the true division of python 3. *)
Definition __init__ (data : option ndarray) (locs : option ndarray)
    (sessions : sessions_arg) (sample_rate : sample_rate_arg)
    : list string * result Brain :=
  let self_data := DataFrame data in
  match DataFrame_xyz locs with
  | Raise e => ([], Raise e)
  | Ok self_locs =>
  match session_series (shape0 self_data) sessions with
  | Raise e => ([], Raise e)
  | Ok self_sessions =>
  let '(warnings, self_sample_rate) := sample_rates self_sessions sample_rate in
  let self_n_elecs := shape1 self_data in
  (warnings,
   r ← first self_sample_rate;
   self_n_secs ← true_divide (shape0 self_data) r;
   let self_n_sessions := length (remove_dups self_sessions) in
   let self := mkBrain self_data self_locs self_sessions self_sample_rate
                       self_n_elecs self_n_secs self_n_sessions [] in
   Ok (mkBrain self_data self_locs self_sessions self_sample_rate
               self_n_elecs self_n_secs self_n_sessions (kurt_vals self)))
  end end.

End brain.

(** Modelled from the spec: [kurt_vals] is not part of the sources at hand;
    the spec has a per-channel kurtosis score derived from the timeseries.
    This is the excess kurtosis of every column, [m4 / m2^2 - 3]. *)
Definition column (df : ndarray) (j : nat) : list float :=
  omap (λ row : list float, row !! j) df.

Definition fsum (l : list float) : float := foldr PrimFloat.add 0%float l.

Definition central_moment (k : nat) (xs : list float) : float :=
  let n := float_of_nat (length xs) in
  let mean := (fsum xs / n)%float in
  (fsum ((λ x, Nat.iter k (PrimFloat.mul (x - mean)) 1) <$> xs) / n)%float.

Definition kurtosis_of (xs : list float) : float :=
  let m2 := central_moment 2 xs in
  (central_moment 4 xs / (m2 * m2) - 3)%float.

Definition kurt_vals_spec (bo : Brain) : list float :=
  (λ j, kurtosis_of (column (data bo) j)) <$> seq 0 (shape1 (data bo)).

End SuperEEG.

(** ** code/recon_with_model.py *)

Module Recon.

(** The file system as the driver sees it, what it has printed, and the
    files it has saved *)
Record world : Type := mkWorld {
  files : gset string;
  dirs : gset string;
  stdout : list string;
  saved : list string
}.

(** what [good_chans] hands back for the locations: the empty python list
    when no channel passes, else the array of the locations that pass *)
Inductive good_locs : Type :=
  | EmptyList
  | Locations (R_K_subj : ndarray).

(** the number of channels that passed the kurtosis threshold *)
Definition surviving (g : good_locs) : nat :=
  match g with
  | EmptyList => 0
  | Locations R_K_subj => length R_K_subj
  end.

(** [os.path.join] of a directory and a relative name *)
Definition join (dir name : string) : string := dir +:+ "/" +:+ name.

(** The modules [stats] and [bookkeeping] are not part of the sources at
    hand, and the contents of the files are not modelled: the driver is
    given the directories that [bookkeeping] computes from the working
    directory, and the result of [good_chans] on the subject's file. *)
Record surroundings : Type := mkSurroundings {
  grand_parent_dir : string;      (* [get_grand_parent_dir(os.getcwd())] *)
  parent_dir : string;            (* [get_parent_dir(os.getcwd())] *)
  good_chans : string → string → good_locs   (* subject file, threshold *)
}.

Definition run (A : Type) : Type := world → world * result A.

#[global] Instance run_ret : MRet run := λ A a w, (w, Ok a).
#[global] Instance run_bind : MBind run := λ A B f c w,
  match c w with
  | (w', Ok a) => f a w'
  | (w', Raise e) => (w', Raise e)
  end.

(** [os.path.isdir], [os.path.isfile] *)
Definition isdir (p : string) : run bool := λ w, (w, Ok (bool_decide (p ∈ dirs w))).
Definition isfile (p : string) : run bool := λ w, (w, Ok (bool_decide (p ∈ files w))).

(** [os.mkdir]: refused when the name is taken *)
Definition mkdir (p : string) : run unit := λ w,
  if bool_decide (p ∈ dirs w ∨ p ∈ files w) then (w, Raise OSError)
  else (mkWorld (files w) ({[p]} ∪ dirs w) (stdout w) (saved w), Ok ()).

(** [np.load]: the file must be there *)
Definition np_load (p : string) : run unit := λ w,
  if bool_decide (p ∈ files w) then (w, Ok ()) else (w, Raise IOError).

(** [scipy.io.savemat]: the file is created or overwritten *)
Definition savemat (p : string) : run unit := λ w,
  (mkWorld ({[p]} ∪ files w) (dirs w) (stdout w) (saved w ++ [p]), Ok ()).

Definition print (s : string) : run unit := λ w,
  (mkWorld (files w) (dirs w) (stdout w ++ [s]) (saved w), Ok ()).

(** the fixed time window *)
Definition lower_time_gif : string := "0".
Definition upper_time_gif : string := "10".
Definition loc_name : string := "R_small_MNI.npy".

(** the directory of the results of the subject, and the two names in it: the
    one whose presence the driver tests, and the one it saves to *)
Definition gif_dir (s : surroundings) (file_name : string) : string :=
  join (grand_parent_dir s)
       ("gif_" +:+ file_name +:+ "_" +:+ lower_time_gif +:+ "_" +:+ upper_time_gif).

Definition tested_file (s : surroundings) (file_name : string) : string :=
  join (gif_dir s file_name)
       ("gif" +:+ file_name +:+ "_" +:+ lower_time_gif +:+ "_" +:+ upper_time_gif +:+ ".mat").

Definition outfile (s : surroundings) (file_name : string) : string :=
  join (gif_dir s file_name) "gif_df.mat".

(** the file with the subject's correlation matrix, locations and kurtosis *)
Definition sub_file (s : surroundings) (file_name : string) : string :=
  join (join (grand_parent_dir s) "corr_matrices")
       ("sub_corr_" +:+ file_name +:+ ".npz").

(** [main(fname, r, k_thresh)].  [file_name] is the name of [fname] without
    directory and extension; [r] and [k_thresh] are the strings of the
    command line.  The numerical steps between the loads and the save are
    taken to succeed; they touch neither the file system nor the standard
    output.  An array compared with [[]] is not equal to it, so the
    test [not R_K_subj == []] fails for the empty list only. *)
Definition main (s : surroundings) (fname file_name r k_thresh : string) : run unit :=
  let average_dir := join (grand_parent_dir s) "ave_model" in
  _ ← np_load fname;
  let corr_dir := join (grand_parent_dir s) "corr_matrices" in
  d ← isdir (gif_dir s file_name);
  _ ← (if negb d then mkdir (gif_dir s file_name) else mret ());
  f ← isfile (tested_file s file_name);
  if negb f then
    _ ← np_load (join corr_dir ("sub_corr_" +:+ file_name +:+ ".npz"));
    match good_chans s (join corr_dir ("sub_corr_" +:+ file_name +:+ ".npz")) k_thresh with
    | EmptyList => mret ()
    | Locations R_K_subj =>
        if decide (1 < length R_K_subj) then
          _ ← np_load (join (parent_dir s) loc_name);
          _ ← np_load (join average_dir
                 ("average_model" +:+ "_k_" +:+ k_thresh +:+ "_r_" +:+ r +:+ ".npz"));
          savemat (outfile s file_name)
        else
          print ("not enough electrodes pass k = " +:+ k_thresh)
    end
  else
    print "gif exists".

End Recon.

(** ** An instance of the helpers, and small inputs

    Locations are rows of integer coordinates (millimetres of a voxel grid).
    The instance follows the descriptions of the helpers in sections 4.1 to
    4.5 where primitive floats allow it; it serves to run the model on
    concrete data. *)

Module Examples.

Abbreviation coords := (Z * Z * Z)%type.

Definition float_of_Z (z : Z) : float :=
  match z with
  | Z.neg p => (- SuperEEG.float_of_nat (Pos.to_nat p))%float
  | _ => SuperEEG.float_of_nat (Z.to_nat z)
  end.

(** squared Euclidean distance *)
Definition dist2 (a b : coords) : Z :=
  let '(x1, y1, z1) := a in
  let '(x2, y2, z2) := b in
  ((x1 - x2) * (x1 - x2) + (y1 - y2) * (y1 - y2) + (z1 - z2) * (z1 - z2))%Z.

(** [n] by [n] array with the cells [g i j] *)
Definition tabulate (n : nat) (g : nat → nat → float) : ndarray :=
  (λ i, (λ j, g i j) <$> seq 0 n) <$> seq 0 n.

(** the strictly lower triangle of [g], mirrored, under a zero diagonal *)
Definition mirrored (g : nat → nat → float) (i j : nat) : float :=
  if decide (i = j) then 0%float else g (i `max` j) (i `min` j).

(** a weight that decreases with the distance, of width 20 *)
Definition example_rbf (targets sources : list coords) : ndarray :=
  (λ t, (λ s, 1 / (1 + float_of_Z (dist2 t s) / 20))%float <$> sources) <$> targets.

(** the weighted sum and the weight mass of a cell *)
Definition weighted_sum (C : ndarray) (wx wy : list float) : float :=
  SuperEEG.fsum (imap (λ p wp,
    SuperEEG.fsum (imap (λ q wq, wp * wq * default 0 (Np.cell C p q))%float wy)) wx).

Definition weight_mass (wx wy : list float) : float :=
  SuperEEG.fsum ((λ wp, SuperEEG.fsum ((λ wq, wp * wq)%float <$> wy)) <$> wx).

Definition example_expand (C W : ndarray) : ndarray * ndarray :=
  (tabulate (length W)
     (mirrored (λ x y, weighted_sum C (default [] (W !! x)) (default [] (W !! y)))),
   tabulate (length W)
     (mirrored (λ x y, weight_mass (default [] (W !! x)) (default [] (W !! y))))).

(** Pearson correlation of the channels *)
Definition centred (xs : list float) : list float :=
  let mean := (SuperEEG.fsum xs / SuperEEG.float_of_nat (length xs))%float in
  (λ x, x - mean)%float <$> xs.

Definition dot (xs ys : list float) : float :=
  SuperEEG.fsum (zip_with PrimFloat.mul xs ys).

Definition pearson (xs ys : list float) : float :=
  let cx := centred xs in
  let cy := centred ys in
  (dot cx cy / PrimFloat.sqrt (dot cx cx * dot cy cy))%float.

Definition example_corrmat (data : ndarray) : ndarray :=
  let n := SuperEEG.shape1 data in
  tabulate n (λ i j, pearson (SuperEEG.column data i) (SuperEEG.column data j)).

(** z-scores of every column *)
Definition example_zscore (data : ndarray) : ndarray :=
  (λ row : list float, imap (λ j x,
     let col := SuperEEG.column data j in
     let c := centred col in
     let sd := PrimFloat.sqrt (dot c c / SuperEEG.float_of_nat (length col)) in
     ((x - SuperEEG.fsum col / SuperEEG.float_of_nat (length col)) / sd)%float) row)
  <$> data.

(** channels whose kurtosis is at most the threshold *)
Definition example_filter_elecs (bo : Supereeg.Brain.t coords) (measure : string)
    (threshold : float) : Supereeg.Brain.t coords :=
  let keep := filter
    (λ j, PrimFloat.leb (SuperEEG.kurtosis_of (SuperEEG.column (Supereeg.Brain.data bo) j))
                        threshold = true)
    (seq 0 (length (Supereeg.Brain.locs bo))) in
  Supereeg.Brain.mk
    ((λ row : list float, omap (row !!.) keep) <$> Supereeg.Brain.data bo)
    (omap (Supereeg.Brain.locs bo !!.) keep)
    (Supereeg.Brain.sessions bo) (Supereeg.Brain.sample_rate bo)
    (Supereeg.Brain.label bo).

(** every electrode moves to the closest location of the model (none is dropped) *)
Definition closest (grid : list coords) (x : coords) : coords :=
  foldr (λ g best, if decide (dist2 x g < dist2 x best)%Z then g else best)
        (default x (head grid)) grid.

Definition example_near_neighbor (bo : Supereeg.Brain.t coords)
    (mo : Supereeg.Model coords) (t : Supereeg.match_threshold)
    : Supereeg.Brain.t coords :=
  Supereeg.Brain.mk (Supereeg.Brain.data bo)
    (closest (Supereeg.locs mo) <$> Supereeg.Brain.locs bo)
    (Supereeg.Brain.sessions bo) (Supereeg.Brain.sample_rate bo)
    (Supereeg.Brain.label bo).

(** the unknown channels as combinations of the known ones, weighted by the
    block of the unknown against the known (the known block is taken for the
    identity: there is no pseudo-inverse on primitive floats) *)
Definition example_recon (bo : Supereeg.Brain.t coords) (K : ndarray) : ndarray :=
  let s := length K - length (Supereeg.Brain.locs bo) in
  (λ sample : list float,
     (λ row : list float, dot (drop s row) sample) <$> take s K)
  <$> example_zscore (Supereeg.Brain.data bo).

Definition helpers_with
    (filter : Supereeg.Brain.t coords → string → float → Supereeg.Brain.t coords)
    : Supereeg.Helpers coords := {|
  Supereeg.filter_elecs := filter;
  Supereeg.get_corrmat := λ bo, example_corrmat (Supereeg.Brain.data bo);
  Supereeg.r2z := λ r, (r + r * r * r / 3)%float;
  Supereeg.z2r := λ z, (z - z * z * z / 3)%float;
  Supereeg.rbf := example_rbf;
  Supereeg.expand_corrmat_fit := example_expand;
  Supereeg.expand_corrmat_predict := example_expand;
  Supereeg.near_neighbor := example_near_neighbor;
  Supereeg.timeseries_recon := example_recon;
  Supereeg.zscore := example_zscore;
  Supereeg.load_nifti := λ _, [(0, 0, 0); (20, 0, 0); (0, 20, 0); (0, 0, 20)]%Z
|}.

#[global] Instance example_helpers : Supereeg.Helpers coords :=
  helpers_with example_filter_elecs.

(** the same helpers with a filter that keeps every channel *)
Definition unfiltered_helpers : Supereeg.Helpers coords :=
  helpers_with (λ bo _ _, bo).

(** three locations of a grid, one off the grid, and subjects recorded there *)
Definition A : coords := (0, 0, 0)%Z.
Definition B : coords := (20, 0, 0)%Z.
Definition C : coords := (40, 0, 0)%Z.
Definition D : coords := (7, 9, 0)%Z.

Definition subject (locs : list coords) (data : ndarray) : Supereeg.Brain.t coords :=
  Supereeg.Brain.mk data locs [1; 1; 1; 1; 1]%Z [1000%float] [].

Definition subject_AB : Supereeg.Brain.t coords :=
  subject [A; B] [[1; 2]; [2; 1]; [4; 3]; [3; 5]; [5; 4]]%float.

Definition subject_BC : Supereeg.Brain.t coords :=
  subject [B; C] [[2; 1]; [1; 3]; [3; 2]; [5; 4]; [4; 5]]%float.

Definition subject_CA : Supereeg.Brain.t coords :=
  subject [C; A] [[1; 5]; [2; 3]; [4; 4]; [3; 1]; [5; 2]]%float.

Definition subject_CAD : Supereeg.Brain.t coords :=
  subject [C; A; D]
    [[1; 5; 2]; [2; 3; 3]; [4; 4; 1]; [3; 1; 5]; [5; 2; 4]]%float.

(** a subject whose first channel is constant: its correlations are NaN *)
Definition subject_flat : Supereeg.Brain.t coords :=
  subject [A; B] [[1; 2]; [1; 1]; [1; 3]; [1; 5]; [1; 4]]%float.

Definition subject_ABC : Supereeg.Brain.t coords :=
  subject [A; B; C]
    [[1; 5; 2]; [2; 3; 3]; [4; 4; 1]; [3; 1; 5]; [5; 2; 4]]%float.

(** a model over the three grid locations, with its arrays at 1 and 2 *)
Definition model_ABC : Supereeg.Model coords := Supereeg.mkModel 1%positive 2%positive [A; B; C] 2%Z.

Definition store_ABC : gmap positive ndarray :=
  <[1%positive := [[0; 0.5; 0.25]; [0.5; 0; 0.75]; [0.25; 0.75; 0]]%float]>
  (<[2%positive := [[0; 1; 1]; [1; 0; 1]; [1; 1; 0]]%float]> ∅).

(** the surroundings of a run of the driver on the subject [s1]: no channel
    passes with [no_channel], three pass with [three_channels] *)
Definition no_channel : Recon.surroundings :=
  Recon.mkSurroundings "/data" "/data/code" (λ _ _, Recon.EmptyList).

Definition three_channels : Recon.surroundings :=
  Recon.mkSurroundings "/data" "/data/code"
    (λ _ _, Recon.Locations [[0; 0; 0]; [20; 0; 0]; [40; 0; 0]]%float).

Definition one_channel : Recon.surroundings :=
  Recon.mkSurroundings "/data" "/data/code"
    (λ _ _, Recon.Locations [[0; 0; 0]]%float).

(** the inputs of the driver, without results of an earlier run *)
Definition inputs : gset string :=
  {[ "/data/s1.npz"%string;
     "/data/corr_matrices/sub_corr_s1.npz"%string;
     "/data/code/R_small_MNI.npy"%string;
     "/data/ave_model/average_model_k_10_r_20.npz"%string ]}.

Definition first_run : Recon.world := Recon.mkWorld inputs ∅ [] [].

(** the same after a run that has left its output *)
Definition second_run : Recon.world :=
  Recon.mkWorld ({[ "/data/gif_s1_0_10/gif_df.mat"%string ]} ∪ inputs)
                {[ "/data/gif_s1_0_10"%string ]} [] [].

(** the same with the file that the driver tests for *)
Definition marked_run : Recon.world :=
  Recon.mkWorld ({[ "/data/gif_s1_0_10/gifs1_0_10.mat"%string ]} ∪ inputs)
                {[ "/data/gif_s1_0_10"%string ]} [] [].

(** the recording alone, without the subject's matrix *)
Definition lone_recording : Recon.world :=
  Recon.mkWorld {[ "/data/s1.npz"%string ]} ∅ [] [].

(** recordings of two channels, and three locations *)
Definition two_channels : ndarray := [[1; 2]; [2; 1]; [4; 3]; [3; 5]; [5; 4]]%float.
Definition three_locations : ndarray := [[0; 0; 0]; [20; 0; 0]; [40; 0; 0]]%float.

(** the estimate of the model over [A], [B], [C]: numerator / denominator *)
Definition estimate_ABC : ndarray :=
  Np.map2 PrimFloat.div
    [[0; 0.5; 0.25]; [0.5; 0; 0.75]; [0.25; 0.75; 0]]%float
    [[0; 1; 1]; [1; 0; 1]; [1; 1; 0]]%float.

(** a model over the same locations that no subject has informed yet *)
Definition store_zeros : gmap positive ndarray :=
  <[1%positive := Np.zeros 3 3]> (<[2%positive := Np.zeros 3 3]> ∅).

End Examples.

(** * Properties *)

(** ** Arrays *)

Section np_facts.
Import Np.

(** *** Cells of element-wise results *)

Lemma cell_map2 f A B i j :
cell (map2 f A B) i j = a ← cell A i j; b ← cell B i j; Some (f a b).
Proof.
unfold cell, map2. rewrite lookup_zip_with.
destruct (A !! i) as [ra|]; simpl; [|done].
destruct (B !! i) as [rb|]; simpl.
- rewrite lookup_zip_with. by destruct (ra !! j).
- by destruct (ra !! j).
Qed.

Lemma row_lengths_map2 f A B :
row_lengths A = row_lengths B → row_lengths (map2 f A B) = row_lengths A.
Proof.
unfold row_lengths, map2. revert B.
induction A as [|ra A IH]; intros [|rb B] Heq; simplify_eq/=; [done|].
rewrite length_zip_with. f_equal; [lia | by apply IH].
Qed.

Lemma same_shape_true A B :
same_shape A B = true ↔ row_lengths A = row_lengths B.
Proof. unfold same_shape. by rewrite bool_decide_eq_true. Qed.

Lemma has_shape_same n m A B :
has_shape n m A → has_shape n m B → same_shape A B = true.
Proof. unfold has_shape. intros HA HB. apply same_shape_true. congruence. Qed.

Lemma has_shape_length n m A : has_shape n m A → length A = n.
Proof.
unfold has_shape, row_lengths. intros H.
by rewrite <-(length_fmap length A), H, length_replicate.
Qed.

Lemma elementwise_ok f n m A B :
has_shape n m A → has_shape n m B →
elementwise f A B = Ok (map2 f A B) ∧ has_shape n m (map2 f A B).
Proof.
intros HA HB. unfold elementwise. rewrite (has_shape_same n m) by done.
split; [done|]. unfold has_shape in *. rewrite row_lengths_map2; congruence.
Qed.

Lemma has_shape_zeros n m : has_shape n m (zeros n m).
Proof.
unfold has_shape, row_lengths, zeros.
rewrite fmap_replicate. by rewrite length_replicate.
Qed.

Lemma cell_zeros n m i j x : cell (zeros n m) i j = Some x → x = 0%float.
Proof.
unfold cell, zeros. intros H.
destruct (replicate n (replicate m 0%float) !! i) as [r|] eqn:Hr; simplify_eq/=.
apply lookup_replicate in Hr as [-> _].
by apply lookup_replicate in H as [-> _].
Qed.

Lemma cell_zeros_lt n m i j : i < n → j < m → cell (zeros n m) i j = Some 0%float.
Proof.
intros Hi Hj. unfold cell, zeros.
rewrite lookup_replicate_2 by done. simpl. by rewrite lookup_replicate_2.
Qed.

(** *** Symmetry and the diagonal *)

Lemma symmetric_map2 f A B :
symmetric A → symmetric B → symmetric (map2 f A B).
Proof. intros HA HB i j. by rewrite !cell_map2, (HA i j), (HB i j). Qed.

Lemma cell_zeros_ge n m i j : n ≤ i ∨ m ≤ j → cell (zeros n m) i j = None.
Proof.
intros H. destruct (cell (zeros n m) i j) as [x|] eqn:Hc; [|done].
unfold cell, zeros in Hc.
destruct (replicate n (replicate m 0%float) !! i) as [r|] eqn:Hr; simplify_eq/=.
apply lookup_replicate in Hr as [-> ?].
apply lookup_replicate in Hc as [_ ?]. lia.
Qed.

Lemma symmetric_zeros n : symmetric (zeros n n).
Proof.
intros i j. destruct (decide (i < n ∧ j < n)) as [[??]|Hn].
- by rewrite !cell_zeros_lt.
- rewrite !cell_zeros_ge; [done|lia|lia].
Qed.

Lemma zero_diagonal_zeros n m : zero_diagonal (zeros n m).
Proof. intros i x Hx. left. by eapply cell_zeros. Qed.

Lemma is_zero_add a b : is_zero a → is_zero b → is_zero (a + b)%float.
Proof. intros [->| ->] [->| ->]; vm_compute; auto. Qed.

Lemma is_zero_nansum2 a b : is_zero a → is_zero b → is_zero (nansum2 a b).
Proof. intros [->| ->] [->| ->]; vm_compute; auto. Qed.

Lemma zero_diagonal_map2 f A B :
(∀ a b, is_zero a → is_zero b → is_zero (f a b)) →
zero_diagonal A → zero_diagonal B → zero_diagonal (map2 f A B).
Proof.
intros Hf HA HB i x. rewrite cell_map2.
destruct (cell A i i) as [a|] eqn:Ha; simpl; [|done].
destruct (cell B i i) as [b|] eqn:Hb; simpl; [|done].
intros [= <-]. apply Hf; eauto.
Qed.

Lemma zero_diagonal_mask D N :
zero_diagonal D → zero_diagonal (map2 (mask_assign_cell 0%float) D N).
Proof.
intros HD i x. rewrite cell_map2.
destruct (cell D i i) as [d|] eqn:Hd; simpl; [|done].
destruct (cell N i i) as [n|]; simpl; [|done].
intros [= <-]. unfold mask_assign_cell.
destruct (PrimFloat.is_nan n); [by left | eauto].
Qed.

Lemma cell_fill_diagonal_eq A v i :
  cell (fill_diagonal A v) i i = (λ _, v) <$> cell A i i.
Proof.
  unfold cell, fill_diagonal. rewrite list_lookup_imap.
  destruct (A !! i) as [row|]; simpl; [|done].
  destruct (row !! i) as [x|] eqn:Hx; simpl.
  - apply list_lookup_insert_eq. by eapply lookup_lt_Some.
  - rewrite list_insert_ge; [done|]. by apply lookup_ge_None.
Qed.

Lemma cell_fill_diagonal_ne A v i j :
  i ≠ j → cell (fill_diagonal A v) i j = cell A i j.
Proof.
  intros Hij. unfold cell, fill_diagonal. rewrite list_lookup_imap.
  destruct (A !! i) as [row|]; simpl; [|done].
  by apply list_lookup_insert_ne.
Qed.

Lemma cell_map_cells f A i j : cell (map_cells f A) i j = f <$> cell A i j.
Proof.
  unfold cell, map_cells. rewrite list_lookup_fmap.
  destruct (A !! i) as [row|]; simpl; [|done].
  by rewrite list_lookup_fmap.
Qed.

Lemma cell_has_shape n m A i j :
  has_shape n m A → i < n → j < m → is_Some (cell A i j).
Proof.
  unfold has_shape, row_lengths, cell. intros HA Hi Hj.
  assert (Hr : (length <$> A) !! i = Some m)
    by (rewrite HA; by apply lookup_replicate_2).
  rewrite list_lookup_fmap in Hr.
  destruct (A !! i) as [row|]; simplify_eq/=.
  apply lookup_lt_is_Some. lia.
Qed.

End np_facts.

(** ** The store *)

Section store_facts.
Import Supereeg.

Lemma fresh_not_in (h : gmap positive ndarray) : h !! fresh (dom h) = None.
Proof. apply not_elem_of_dom, is_fresh. Qed.

Lemma alloc_spec (v : ndarray) (h : gmap positive ndarray) :
  alloc v h = (<[fresh (dom h) := v]> h, Ok (fresh (dom h))).
Proof. done. Qed.

Lemma alloc_grows (v : ndarray) (h0 h : gmap positive ndarray) :
  h0 ⊆ h → h0 ⊆ <[fresh (dom h) := v]> h.
Proof.
  intros Hsub. etrans; [exact Hsub|]. apply insert_subseteq, fresh_not_in.
Qed.

Lemma fresh_not_below (h0 h : gmap positive ndarray) :
  h0 ⊆ h → h0 !! fresh (dom h) = None.
Proof.
  intros Hsub. destruct (h0 !! fresh (dom h)) as [v|] eqn:Hv; [|done].
  eapply lookup_weaken in Hv; [|exact Hsub]. by rewrite fresh_not_in in Hv.
Qed.

End store_facts.

Section model_facts.
Import Supereeg.
Context {Loc : Type} `{EqDecision Loc} `{Helpers Loc}.

Implicit Types (h : gmap positive ndarray) (self m : Model Loc) (bo : Brain.t Loc).

(** the loop of [update] writes only to the array it was handed as
    [denominator] and to arrays it has created, and the array it returns as
    the numerator is the one it was handed or one it has created *)
Lemma update_loop_frame data : ∀ h0 h m measure threshold num den n,
  h0 ⊆ h → h0 !! den = None → h0 !! num = None →
  h0 ⊆ (update_loop m measure threshold data num den n h).1 ∧
  ∀ r, (update_loop m measure threshold data num den n h).2 = Ok r →
       h0 !! r.1 = None ∧ r.2 = (n + Z.of_nat (length data))%Z.
Proof.
  induction data as [|bo data IH];
    intros h0 h m measure threshold num den n Hsub Hden Hnum.
  - split; [done|]. intros r [= <-]. split; [done|]. simpl. lia.
  - simpl. replace (n + Z.of_nat (S (length data)))%Z
      with ((n + 1) + Z.of_nat (length data))%Z by lia. destruct (expand_subject _ _ _) as [nx dx].
    unfold mbind, M_bind, lift, read, write, alloc; simpl.
    destruct (Np.assign_where_isnan dx nx 0) as [dx'|e]; [|done].
    destruct (Np.nansum_dstack _ nx) as [new|e]; [|done].
    destruct (Np.add _ dx') as [den'|e]; simpl.
    + apply IH; [|done|by apply fresh_not_below].
      apply insert_subseteq_r; [done|]. by apply alloc_grows.
    + split; [by apply alloc_grows|done].
Qed.

(** what the loop of [update] leaves in the store: the arrays that the
    rounds compute *)
Lemma update_loop_spec data : ∀ h m measure threshold num den n vn vd,
  h !! num = Some vn → h !! den = Some vd →
  match update_rounds (locs m) measure threshold data vn vd with
  | Ok nd => ∃ h' num',
      update_loop m measure threshold data num den n h
        = (h', Ok (num', (n + Z.of_nat (length data))%Z)) ∧
      h' !! num' = Some nd.1 ∧ h' !! den = Some nd.2
  | Raise e => ∃ h', update_loop m measure threshold data num den n h = (h', Raise e)
  end.
Proof.
  induction data as [|bo data IH]; intros h m measure threshold num den n vn vd Hn Hd.
  - simpl. exists h, num. by rewrite Z.add_0_r.
  - simpl. unfold update_round. destruct (expand_subject _ _ _) as [nx dx].
    unfold mbind, M_bind, result_bind, lift, read, write, alloc.
    simpl. rewrite Hn. simpl.
    destruct (Np.assign_where_isnan dx nx 0) as [dx'|e]; simpl; [|by eexists].
    destruct (Np.nansum_dstack vn nx) as [new|e]; simpl; [|by eexists].
    assert (Hne : fresh (dom h) ≠ den).
    { intros Heq. pose proof (fresh_not_in h) as Hf. congruence. }
    rewrite lookup_insert_ne by done. rewrite Hd. simpl.
    destruct (Np.add vd dx') as [den'|e]; simpl; [|by eexists].
    specialize (IH (<[den:=den']> (<[fresh (dom h):=new]> h)) m measure threshold
                   (fresh (dom h)) den (n + 1)%Z new den').
    rewrite lookup_insert_ne, lookup_insert_eq in IH by done.
    rewrite lookup_insert_eq in IH.
    specialize (IH eq_refl eq_refl).
    destruct (update_rounds _ _ _ data new den') as [nd|e]; [|done].
    destruct IH as (h' & num' & Hrun & ? & ?).
    exists h', num'. split; [|done]. rewrite Hrun. do 3 f_equal. lia.
Qed.

Lemma update_spec self data measure threshold h vn vd :
  h !! numerator self = Some vn → h !! denominator self = Some vd →
  match update_rounds (locs self) measure threshold data vn vd with
  | Ok nd => ∃ h' m',
      update self data measure threshold h = (h', Ok m') ∧
      h' !! numerator m' = Some nd.1 ∧ h' !! denominator m' = Some nd.2 ∧
      locs m' = locs self
  | Raise e => ∃ h', update self data measure threshold h = (h', Raise e)
  end.
Proof.
  intros Hn Hd. unfold update, deepcopy.
  unfold mbind, M_bind, mret, M_ret, read, alloc. simpl. rewrite Hn, Hd. simpl.
  set (a1 := fresh (dom h)).
  set (h1 := <[a1:=vn]> h).
  set (a2 := fresh (dom h1)).
  set (h2 := <[a2:=vd]> h1).
  assert (Hne : a2 ≠ a1).
  { intros Heq. pose proof (fresh_not_in h1) as Hf. fold a2 in Hf.
    rewrite Heq in Hf. unfold h1 in Hf. by rewrite lookup_insert_eq in Hf. }
  pose proof (update_loop_spec data h2 (mkModel a1 a2 (locs self) (n_subs self))
                measure threshold a1 a2 (n_subs self) vn vd) as Hloop.
  unfold h2 at 1 2 in Hloop. rewrite lookup_insert_ne in Hloop by done.
  unfold h1 at 1 in Hloop. rewrite !lookup_insert_eq in Hloop.
  specialize (Hloop eq_refl eq_refl). simpl in Hloop.
  destruct (update_rounds _ _ _ data vn vd) as [nd|e].
  - destruct Hloop as (h' & num' & -> & ? & ?). simpl.
    by exists h', (mkModel num' a2 (locs self) (n_subs self + Z.of_nat (length data))).
  - destruct Hloop as (h' & ->). by exists h'.
Qed.

Lemma update_frame self data measure threshold h :
  h ⊆ (update self data measure threshold h).1 ∧
  ∀ m', (update self data measure threshold h).2 = Ok m' →
        h !! numerator m' = None ∧ h !! denominator m' = None ∧
        locs m' = locs self ∧
        n_subs m' = (n_subs self + Z.of_nat (length data))%Z.
Proof.
  unfold update, deepcopy.
  unfold mbind, M_bind, mret, M_ret, read, alloc. simpl.
  set (vn := default [] (h !! numerator self)).
  set (vd := default [] (h !! denominator self)).
  set (a1 := fresh (dom h)).
  set (h1 := <[a1:=vn]> h).
  set (a2 := fresh (dom h1)).
  set (h2 := <[a2:=vd]> h1).
  assert (Hsub1 : h ⊆ h1) by (by apply alloc_grows).
  assert (Hsub2 : h ⊆ h2) by (by apply alloc_grows).
  assert (Ha1 : h !! a1 = None) by apply fresh_not_in.
  assert (Ha2 : h !! a2 = None) by (by apply fresh_not_below).
  destruct (update_loop_frame data h h2 (mkModel a1 a2 (locs self) (n_subs self))
              measure threshold a1 a2 (n_subs self) Hsub2 Ha2 Ha1) as [Hsub Hres].
  simpl in Hsub, Hres.
  destruct (update_loop _ measure threshold data a1 a2 (n_subs self) h2)
    as [h' [[num' n']|e]]; simpl in *.
  - split; [done|]. intros m' [= <-]. simpl.
    destruct (Hres _ eq_refl) as [? Hn]. simpl in Hn. by subst n'.
  - split; [done|]. by intros m' [=].
Qed.

Lemma model_estimate_frame self bo force_update h :
  (model_estimate self bo force_update h).1 = h.
Proof.
  unfold model_estimate. destruct force_update.
  - destruct (expand_subject _ _ _) as [nx dx].
    unfold mbind, M_bind, lift, read. simpl.
    destruct (Np.add _ nx); simpl; [|done].
    by destruct (Np.add _ dx).
  - by unfold mbind, M_bind, lift, read.
Qed.

Lemma predict_frame self bo nearest_neighbor match_threshold force_update kthreshold h :
  (predict self bo nearest_neighbor match_threshold force_update kthreshold h).1 = h.
Proof.
  unfold predict. unfold mbind at 1. unfold M_bind.
  pose proof (model_estimate_frame self
    (filter_elecs (if nearest_neighbor then near_neighbor bo self match_threshold else bo)
                  "kurtosis" kthreshold) force_update h) as Hest.
  destruct (model_estimate _ _ _ h) as [h' [c|e]]; simpl in *; subst; [|done].
  unfold mbind, M_bind, lift. by destruct (align _ _ c).
Qed.

(** C2.  No operation mutates the model it is called on.  After
    [update], every array that the store held before the call, those of
    [self] among them, has the contents it had; the arrays of the returned
    model are new ones, and only the returned model counts the added
    subjects.  [predict], with or without [force_update], leaves the whole
    store as it found it: the subject's contribution is added in arrays of
    its own. *)
Theorem update_and_predict_leave_self_unchanged
    self data measure threshold bo nearest_neighbor match_threshold force_update
    kthreshold h :
  (∀ a v, h !! a = Some v →
          (update self data measure threshold h).1 !! a = Some v) ∧
  (∀ m', (update self data measure threshold h).2 = Ok m' →
         h !! numerator m' = None ∧ h !! denominator m' = None ∧
         locs m' = locs self ∧
         n_subs m' = (n_subs self + Z.of_nat (length data))%Z) ∧
  (predict self bo nearest_neighbor match_threshold force_update kthreshold h).1 = h.
Proof.
  destruct (update_frame self data measure threshold h) as [Hsub Hnew].
  split; [|split].
  - intros a v Hv. by eapply lookup_weaken.
  - exact Hnew.
  - apply predict_frame.
Qed.

End model_facts.

(** ** Symmetry of the accumulators *)

Section model_symmetry.
Import Supereeg.
Context {Loc : Type} `{EqDecision Loc} `{Helpers Loc}.
Context {Hshape : HelpersShape} {Hsymmetric : HelpersSymmetric}.

Implicit Types (h : gmap positive ndarray) (self m : Model Loc) (bo : Brain.t Loc).

Lemma expand_subject_invariant (model_locs : list Loc) C bo :
  invariant_array (length model_locs) (expand_subject model_locs C bo).1 ∧
  invariant_array (length model_locs) (expand_subject model_locs C bo).2.
Proof.
  unfold expand_subject, invariant_array.
  set (Cz := Np.map_cells r2z C). set (W := rbf model_locs (Brain.locs bo)).
  destruct (expand_fit_shape Cz W) as [Hs1 Hs2].
  destruct (expand_fit_symmetric Cz W) as [Hy1 Hy2].
  destruct (expand_fit_zero_diagonal Cz W) as [Hz1 Hz2].
  assert (HW : length W = length model_locs) by apply rbf_rows.
  rewrite HW in Hs1, Hs2. done.
Qed.

Lemma invariant_map2 f n A B :
  (∀ a b, Np.is_zero a → Np.is_zero b → Np.is_zero (f a b)) →
  invariant_array n A → invariant_array n B → invariant_array n (Np.map2 f A B).
Proof.
  intros Hf (HsA & HyA & HzA) (HsB & HyB & HzB). split; [|split].
  - by apply (elementwise_ok f n n A B).
  - by apply symmetric_map2.
  - by apply zero_diagonal_map2.
Qed.

Lemma invariant_mask n D N :
  invariant_array n D → invariant_array n N →
  Np.assign_where_isnan D N 0 = Ok (Np.map2 (Np.mask_assign_cell 0) D N) ∧
  invariant_array n (Np.map2 (Np.mask_assign_cell 0) D N).
Proof.
  intros (HsD & HyD & HzD) (HsN & HyN & HzN). split; [|split; [|split]].
  - unfold Np.assign_where_isnan. by rewrite (has_shape_same n n).
  - by apply (elementwise_ok (Np.mask_assign_cell 0) n n D N).
  - by apply symmetric_map2.
  - by apply zero_diagonal_mask.
Qed.

Lemma invariant_zeros n : invariant_array n (Np.zeros n n).
Proof.
  split; [apply has_shape_zeros|].
  split; [apply symmetric_zeros | apply zero_diagonal_zeros].
Qed.

Lemma fit_loop_invariant model_locs measure threshold data : ∀ num den,
  invariant_array (length model_locs) num →
  invariant_array (length model_locs) den →
  ∃ nd, fit_loop model_locs measure threshold data num den = Ok nd ∧
        invariant_array (length model_locs) nd.1 ∧
        invariant_array (length model_locs) nd.2.
Proof.
  induction data as [|bo data IH]; intros num den Hn Hd; simpl.
  - by exists (num, den).
  - match goal with |- context [expand_subject ?l ?C ?b] =>
      pose proof (expand_subject_invariant l C b) as [Hx Hy];
      destruct (expand_subject l C b) as [nx dx] end.
    simpl in Hx, Hy. unfold Np.add.
    destruct (elementwise_ok PrimFloat.add _ _ num nx (proj1 Hn) (proj1 Hx)) as [-> _].
    destruct (elementwise_ok PrimFloat.add _ _ den dx (proj1 Hd) (proj1 Hy)) as [-> _].
    simpl. apply IH; apply invariant_map2; auto using is_zero_add.
Qed.

Lemma update_rounds_invariant model_locs measure threshold data : ∀ num den,
  invariant_array (length model_locs) num →
  invariant_array (length model_locs) den →
  ∃ nd, update_rounds model_locs measure threshold data num den = Ok nd ∧
        invariant_array (length model_locs) nd.1 ∧
        invariant_array (length model_locs) nd.2.
Proof.
  induction data as [|bo data IH]; intros num den Hn Hd; simpl.
  - by exists (num, den).
  - unfold update_round.
    match goal with |- context [expand_subject ?l ?C ?b] =>
      pose proof (expand_subject_invariant l C b) as [Hx Hy];
      destruct (expand_subject l C b) as [nx dx] end.
    simpl in Hx, Hy.
    destruct (invariant_mask _ dx nx Hy Hx) as [-> Hm].
    unfold Np.nansum_dstack, Np.add. simpl.
    destruct (elementwise_ok Np.nansum2 _ _ num nx (proj1 Hn) (proj1 Hx)) as [-> _].
    simpl.
    destruct (elementwise_ok PrimFloat.add _ _ den _ (proj1 Hd) (proj1 Hm)) as [-> _].
    simpl. apply IH; apply invariant_map2; auto using is_zero_add, is_zero_nansum2.
Qed.

Lemma init_invariant data locs template measure threshold h :
  ∃ h' m,
    __init__ data locs template measure threshold None None None h = (h', Ok m) ∧
    model_invariant h' m.
Proof.
  unfold __init__. simpl.
  set (l := match locs with None => load_nifti template | Some locs0 => locs0 end).
  destruct (fit_loop_invariant l measure threshold data _ _
              (invariant_zeros (length l)) (invariant_zeros (length l)))
    as ([vn vd] & Hfit & Hn & Hd).
  unfold mbind, M_bind, mret, M_ret, lift, alloc. simpl. rewrite Hfit. simpl.
  eexists _, _. split; [done|].
  exists vn, vd. simpl.
  assert (Hne : fresh (dom (<[fresh (dom h):=vn]> h)) ≠ fresh (dom h)).
  { intros Heq. pose proof (fresh_not_in (<[fresh (dom h):=vn]> h)) as Hf.
    rewrite Heq in Hf. by rewrite lookup_insert_eq in Hf. }
  rewrite lookup_insert_ne, !lookup_insert_eq by done.
  by unfold n_locs.
Qed.

Lemma update_invariant self data measure threshold h :
  model_invariant h self →
  ∃ h' m', update self data measure threshold h = (h', Ok m') ∧ model_invariant h' m'.
Proof.
  intros (vn & vd & Hn & Hd & Hin & Hid).
  pose proof (update_spec self data measure threshold h vn vd Hn Hd) as Hspec.
  destruct (update_rounds_invariant (locs self) measure threshold data vn vd Hin Hid)
    as (nd & Hrounds & Hn' & Hd').
  rewrite Hrounds in Hspec. destruct Hspec as (h' & m' & Hrun & Hln & Hld & Hlocs).
  exists h', m'. split; [done|].
  exists nd.1, nd.2. unfold n_locs. rewrite Hlocs. done.
Qed.

Lemma update_all_invariant calls : ∀ self h,
  model_invariant h self →
  ∃ h' m, update_all self calls h = (h', Ok m) ∧ model_invariant h' m.
Proof.
  induction calls as [|[[data measure] threshold] calls IH]; intros self h Hinv; simpl.
  - by exists h, self.
  - destruct (update_invariant self data measure threshold h Hinv)
      as (h1 & m1 & Hrun & Hinv1).
    unfold mbind, M_bind. rewrite Hrun. by apply IH.
Qed.

(** C4.  Provided the helpers return, for every subject, contributions of the
    size of the location set that are symmetric with a zero diagonal: for
    every list of subjects a model is fitted from and every sequence of
    calls of [update] that follows, construction and all the updates
    succeed, and the numerator and the denominator of the resulting model
    are symmetric with a zero diagonal. *)
Theorem fit_and_update_keep_symmetry data locs template measure threshold calls h :
  ∃ h' m,
    (m0 ← __init__ data locs template measure threshold None None None;
     update_all m0 calls) h = (h', Ok m) ∧
    model_invariant h' m.
Proof.
  destruct (init_invariant data locs template measure threshold h)
    as (h0 & m0 & Hinit & Hinv0).
  unfold mbind, M_bind. rewrite Hinit.
  by apply update_all_invariant.
Qed.

End model_symmetry.

(** ** The instance of the helpers meets the assumptions *)

Section examples_facts.
Import Supereeg Examples.

Lemma fmap_const_replicate {A B} (c : B) (l : list A) :
  (λ _, c) <$> l = replicate (length l) c.
Proof. induction l as [|x l IH]; csimpl; [done|]. by f_equal. Qed.

Lemma row_lengths_fmap {A} (f : A → list float) m (l : list A) :
  (∀ x, length (f x) = m) → Np.row_lengths (f <$> l) = replicate (length l) m.
Proof.
  intros Hf. unfold Np.row_lengths.
  induction l as [|x l IH]; csimpl; [done|]. by rewrite Hf, IH.
Qed.

Lemma has_shape_tabulate n g : Np.has_shape n n (tabulate n g).
Proof.
  unfold Np.has_shape, tabulate. rewrite (row_lengths_fmap _ n).
  - by rewrite length_seq.
  - intros i. by rewrite length_fmap, length_seq.
Qed.

Lemma cell_tabulate n g i j :
  Np.cell (tabulate n g) i j = if decide (i < n ∧ j < n) then Some (g i j) else None.
Proof.
  unfold Np.cell, tabulate. rewrite list_lookup_fmap.
  destruct (decide (i < n)) as [Hi|Hi].
  - rewrite lookup_seq_lt by done. simpl. rewrite list_lookup_fmap.
    destruct (decide (j < n)) as [Hj|Hj].
    + rewrite lookup_seq_lt by done. simpl. by rewrite decide_True.
    + rewrite lookup_seq_ge by lia. simpl. rewrite decide_False; [done|lia].
  - rewrite lookup_seq_ge by lia. simpl. rewrite decide_False; [done|lia].
Qed.

Lemma mirrored_comm g i j : mirrored g i j = mirrored g j i.
Proof.
  unfold mirrored. destruct (decide (i = j)) as [->|Hne].
  - by rewrite decide_True.
  - rewrite decide_False by done. by rewrite Nat.max_comm, Nat.min_comm.
Qed.

Lemma invariant_tabulate_mirrored n g : invariant_array n (tabulate n (mirrored g)).
Proof.
  split; [apply has_shape_tabulate|]. split.
  - intros i j. rewrite !cell_tabulate, mirrored_comm.
    destruct (decide (i < n ∧ j < n)), (decide (j < n ∧ i < n)); (done || lia).
  - intros i x. rewrite cell_tabulate. case_decide; [|done].
    intros [= <-]. left. unfold mirrored. by rewrite decide_True.
Qed.

Lemma helpers_with_shape filter : HelpersShape (H := helpers_with filter).
Proof.
  split; simpl.
  - intros l1 l2. unfold example_rbf. by rewrite length_fmap.
  - intros C W. split; apply has_shape_tabulate.
Qed.

Lemma helpers_with_predict_shape filter :
  HelpersPredictShape (H := helpers_with filter).
Proof.
  split; simpl.
  - intros C W. split; apply has_shape_tabulate.
  - intros bo K. unfold example_recon, example_zscore. by rewrite !length_fmap.
  - intros M. unfold example_zscore. by rewrite length_fmap.
Qed.

Lemma helpers_with_symmetric filter : HelpersSymmetric (H := helpers_with filter).
Proof.
  split; simpl; intros C W; unfold example_expand; simpl.
  - split; apply invariant_tabulate_mirrored.
  - split; apply invariant_tabulate_mirrored.
Qed.

Lemma example_helpers_shape : HelpersShape (H := example_helpers).
Proof. apply helpers_with_shape. Qed.

Lemma example_helpers_symmetric : HelpersSymmetric (H := example_helpers).
Proof. apply helpers_with_symmetric. Qed.

End examples_facts.

(** ** The properties on the examples *)

Section examples_run.
Import Supereeg Examples.

Lemma fit_and_update_keep_symmetry_witness :
  ∃ h' m,
    (m0 ← __init__ [subject_AB; subject_BC] (Some [A; B; C]) None "kurtosis" 10
                   None None None;
     update_all m0 [([subject_CA], "kurtosis"%string, 10%float)]) ∅ = (h', Ok m) ∧
    model_invariant h' m.
Proof.
  exact (fit_and_update_keep_symmetry (H := example_helpers)
           (Hshape := example_helpers_shape)
           (Hsymmetric := example_helpers_symmetric)
           [subject_AB; subject_BC] (Some [A; B; C]) None "kurtosis" 10
           [([subject_CA], "kurtosis"%string, 10%float)] ∅).
Defined.

End examples_run.

(** ** The estimate: [plot], and the cells no subject informs *)

Section model_estimate_facts.
Import Supereeg.
Context {Loc : Type} `{EqDecision Loc} `{Helpers Loc}.

Implicit Types (h : gmap positive ndarray) (self m : Model Loc) (bo : Brain.t Loc).

(** C8, as the code has it.  For every model whose arrays have the size of
    its location set, the matrix that [plot] hands to the heat map is
    [z2r(numerator / denominator)] with every diagonal cell set to one: the
    cells off the diagonal are those of the estimate, the diagonal is 1.0. *)
Theorem plot_estimate_with_unit_diagonal self h :
  model_wf h self →
  ∃ num den q corr_mat,
    h !! numerator self = Some num ∧ h !! denominator self = Some den ∧
    Np.divide num den = Ok q ∧
    plot self h = (h, Ok corr_mat) ∧
    (∀ i, i < n_locs self → Np.cell corr_mat i i = Some 1%float) ∧
    (∀ i j, i ≠ j → Np.cell corr_mat i j = z2r <$> Np.cell q i j).
Proof.
  intros (num & den & Hn & Hd & Hsn & Hsd).
  destruct (elementwise_ok PrimFloat.div _ _ num den Hsn Hsd) as [Hdiv Hsq].
  exists num, den, (Np.map2 PrimFloat.div num den),
    (Np.fill_diagonal (Np.map_cells z2r (Np.map2 PrimFloat.div num den)) 1).
  split; [done|]. split; [done|]. split; [done|].
  split; [|split].
  - unfold plot, mbind, M_bind, mret, M_ret, lift, read. simpl.
    rewrite Hn, Hd. simpl. unfold Np.divide. by rewrite Hdiv.
  - intros i Hi. rewrite cell_fill_diagonal_eq, cell_map_cells.
    destruct (cell_has_shape _ _ _ i i Hsq Hi Hi) as [x ->]. done.
  - intros i j Hij. by rewrite cell_fill_diagonal_ne, cell_map_cells.
Qed.

End model_estimate_facts.

Section examples_plot.
Import Supereeg Examples.

Lemma model_ABC_wf : model_wf store_ABC model_ABC.
Proof.
  eexists _, _. split; [reflexivity|]. split; [reflexivity|]. split; reflexivity.
Qed.

Lemma plot_estimate_with_unit_diagonal_witness :
  ∃ num den q corr_mat,
    store_ABC !! numerator model_ABC = Some num ∧
    store_ABC !! denominator model_ABC = Some den ∧
    Np.divide num den = Ok q ∧
    plot model_ABC store_ABC = (store_ABC, Ok corr_mat) ∧
    (∀ i, i < n_locs model_ABC → Np.cell corr_mat i i = Some 1%float) ∧
    (∀ i j, i ≠ j → Np.cell corr_mat i j = z2r <$> Np.cell q i j).
Proof.
  apply (plot_estimate_with_unit_diagonal (H := example_helpers) model_ABC store_ABC).
  apply model_ABC_wf.
Defined.

(** the matrix handed to the heat map for the model over [A], [B], [C] has
    ones on its diagonal: the diagonal is not zero *)
Lemma plot_diagonal_is_not_zero :
  ∃ corr_mat,
    (plot model_ABC store_ABC).2 = Ok corr_mat ∧
    Np.cell corr_mat 0 0 = Some 1%float ∧
    ¬ Np.zero_diagonal corr_mat.
Proof.
  eexists. split; [vm_compute; reflexivity|]. split; [reflexivity|].
  intros Hz. destruct (Hz 0 1%float eq_refl) as [Hone|Hone]; discriminate Hone.
Qed.

End examples_plot.

(** ** Cells without information in [update] *)

Section model_missing_cells.
Import Supereeg.
Context {Loc : Type} `{EqDecision Loc} `{Helpers Loc}.
Context {Hshape : HelpersShape}.

Implicit Types (h : gmap positive ndarray) (self m : Model Loc) (bo : Brain.t Loc).

Lemma expand_subject_shape (model_locs : list Loc) C bo :
  Np.has_shape (length model_locs) (length model_locs) (expand_subject model_locs C bo).1 ∧
  Np.has_shape (length model_locs) (length model_locs) (expand_subject model_locs C bo).2.
Proof.
  unfold expand_subject.
  set (Cz := Np.map_cells r2z C). set (W := rbf model_locs (Brain.locs bo)).
  destruct (expand_fit_shape Cz W) as [Hs1 Hs2].
  assert (HW : length W = length model_locs) by apply rbf_rows.
  by rewrite HW in Hs1, Hs2.
Qed.

(** one round of the loop, on arrays of the size of the location set *)
Lemma update_round_shape model_locs measure threshold bo num den :
  let n := length model_locs in
  let bo' := filter_elecs bo measure threshold in
  let x := expand_subject model_locs (get_corrmat bo') bo' in
  Np.has_shape n n num → Np.has_shape n n den →
  update_round model_locs measure threshold bo num den
    = Ok (Np.map2 Np.nansum2 num x.1,
          Np.map2 PrimFloat.add den (Np.map2 (Np.mask_assign_cell 0) x.2 x.1)) ∧
  Np.has_shape n n (Np.map2 Np.nansum2 num x.1) ∧
  Np.has_shape n n
    (Np.map2 PrimFloat.add den (Np.map2 (Np.mask_assign_cell 0) x.2 x.1)).
Proof.
  intros n bo' x Hn Hd. unfold update_round. fold bo'. fold x.
  destruct (expand_subject_shape model_locs (get_corrmat bo') bo') as [Hx1 Hx2].
  fold x in Hx1, Hx2. fold n in Hx1, Hx2.
  destruct x as [nx dx]. simpl in *.
  destruct (elementwise_ok (Np.mask_assign_cell 0) _ _ dx nx Hx2 Hx1) as [_ Hm].
  destruct (elementwise_ok Np.nansum2 _ _ num nx Hn Hx1) as [Hsum Hs].
  destruct (elementwise_ok PrimFloat.add _ _ den _ Hd Hm) as [Hadd Ha].
  unfold Np.assign_where_isnan. rewrite (has_shape_same n n) by done.
  unfold Np.nansum_dstack, Np.add. simpl. rewrite Hsum. simpl. rewrite Hadd. done.
Qed.

(** a cell whose contribution is NaN: the numerator adds nothing, the
    denominator adds zero *)
Lemma absent_cell num den nx dx i j a d x :
  Np.cell num i j = Some a → Np.cell den i j = Some d →
  Np.cell nx i j = Some x → PrimFloat.is_nan x = true →
  is_Some (Np.cell dx i j) →
  Np.cell (Np.map2 Np.nansum2 num nx) i j = Some (Np.nan_to_zero a + 0)%float ∧
  Np.cell (Np.map2 PrimFloat.add den (Np.map2 (Np.mask_assign_cell 0) dx nx)) i j
    = Some (d + 0)%float.
Proof.
  intros Ha Hd Hx Hnan [w Hw]. rewrite !cell_map2, Ha, Hd, Hx, Hw. simpl.
  unfold Np.nansum2, Np.mask_assign_cell, Np.nan_to_zero at 2. by rewrite Hnan.
Qed.

Lemma update_rounds_absent model_locs measure threshold i j data : ∀ num den a d,
  let n := length model_locs in
  Np.has_shape n n num → Np.has_shape n n den →
  Np.cell num i j = Some a → Np.cell den i j = Some d →
  (∀ bo, bo ∈ data →
     let bo' := filter_elecs bo measure threshold in
     ∃ x, Np.cell (expand_subject model_locs (get_corrmat bo') bo').1 i j = Some x ∧
          PrimFloat.is_nan x = true) →
  ∃ nd, update_rounds model_locs measure threshold data num den = Ok nd ∧
        Np.has_shape n n nd.1 ∧ Np.has_shape n n nd.2 ∧
        Np.cell nd.1 i j
          = Some (Nat.iter (length data) (λ a, Np.nan_to_zero a + 0)%float a) ∧
        Np.cell nd.2 i j = Some (Nat.iter (length data) (λ d, d + 0)%float d).
Proof.
  induction data as [|bo data IH]; intros num den a d n Hn Hd Ha Hdc Hnan; simpl.
  - by exists (num, den).
  - destruct (update_round_shape model_locs measure threshold bo num den Hn Hd)
      as (-> & Hn' & Hd').
    simpl. destruct (Hnan bo) as (x & Hx & Hxnan); [by left|].
    set (bo' := filter_elecs bo measure threshold) in *.
    destruct (expand_subject_shape model_locs (get_corrmat bo') bo') as [Hx1 Hx2].
    assert (Hij : i < n ∧ j < n).
    { unfold Np.cell in Ha. destruct (num !! i) as [row|] eqn:Hrow; simplify_eq/=.
      assert (Hr : Np.row_lengths num !! i = Some (length row))
        by (unfold Np.row_lengths; by rewrite list_lookup_fmap, Hrow).
      rewrite Hn in Hr. apply lookup_replicate in Hr as [Hlen Hi].
      apply lookup_lt_Some in Ha. lia. }
    destruct (absent_cell num den _ (expand_subject model_locs (get_corrmat bo') bo').2
                i j a d x Ha Hdc Hx Hxnan) as [Hnum Hden].
    { apply (cell_has_shape n n); [done|lia|lia]. }
    destruct (IH _ _ _ _ Hn' Hd' Hnum Hden) as (nd & Hrun & ? & ? & Hc1 & Hc2).
    { intros b Hb. apply Hnan. by right. }
    exists nd. split; [done|]. split; [done|]. split; [done|].
    split; [rewrite Hc1 | rewrite Hc2]; f_equal; symmetry.
    + exact (Nat.iter_succ_r (length data) (λ a, Np.nan_to_zero a + 0)%float a).
    + exact (Nat.iter_succ_r (length data) (λ d, d + 0)%float d).
Qed.

Lemma absent_rounds_zero k : ∀ a d,
  Np.is_zero a → Np.is_zero d →
  PrimFloat.is_nan
    (Nat.iter k (λ a, Np.nan_to_zero a + 0)%float a / Nat.iter k (λ d, d + 0)%float d)
  = true.
Proof.
  induction k as [|k IH]; intros a d Ha Hd.
  - simpl. by destruct Ha as [-> | ->], Hd as [-> | ->].
  - rewrite !Nat.iter_succ_r. apply IH.
    + destruct Ha as [-> | ->]; vm_compute; auto.
    + destruct Hd as [-> | ->]; vm_compute; auto.
Qed.

(** C7.  Provided the helpers return arrays of the size of the location set:
    in every call of [update] on a model with arrays of that size, a cell
    [(i, j)] at which the numerator contribution of every subject is NaN
    receives nothing in the numerator (its NaN counts as absent: the cell
    becomes [nan_to_zero(a) + 0] in every round) and zero in the denominator
    (the cell becomes [d + 0]); and when the cell carried no weight before
    (numerator and denominator zero), the estimate numerator / denominator of
    the updated model is NaN at this cell, not zero. *)
Theorem update_keeps_uninformed_cells_unknown
    self data measure threshold h num den i j a d :
  h !! numerator self = Some num → h !! denominator self = Some den →
  Np.has_shape (n_locs self) (n_locs self) num →
  Np.has_shape (n_locs self) (n_locs self) den →
  Np.cell num i j = Some a → Np.cell den i j = Some d →
  (∀ bo, bo ∈ data →
     let bo' := filter_elecs bo measure threshold in
     ∃ x, Np.cell (expand_subject (locs self) (get_corrmat bo') bo').1 i j = Some x ∧
          PrimFloat.is_nan x = true) →
  ∃ h' m' num' den' q,
    update self data measure threshold h = (h', Ok m') ∧
    h' !! numerator m' = Some num' ∧ h' !! denominator m' = Some den' ∧
    Np.cell num' i j
      = Some (Nat.iter (length data) (λ a, Np.nan_to_zero a + 0)%float a) ∧
    Np.cell den' i j = Some (Nat.iter (length data) (λ d, d + 0)%float d) ∧
    Np.divide num' den' = Ok q ∧
    (Np.is_zero a → Np.is_zero d →
     ∃ x, Np.cell q i j = Some x ∧ PrimFloat.is_nan x = true).
Proof.
  intros Hn Hd Hsn Hsd Ha Hdc Hnan.
  pose proof (update_spec self data measure threshold h num den Hn Hd) as Hspec.
  destruct (update_rounds_absent (locs self) measure threshold i j data num den a d
              Hsn Hsd Ha Hdc Hnan) as (nd & Hrounds & Hs1 & Hs2 & Hc1 & Hc2).
  rewrite Hrounds in Hspec. destruct Hspec as (h' & m' & Hrun & Hln & Hld & _).
  destruct (elementwise_ok PrimFloat.div _ _ nd.1 nd.2 Hs1 Hs2) as [Hdiv _].
  exists h', m', nd.1, nd.2, (Np.map2 PrimFloat.div nd.1 nd.2).
  do 5 (split; [done|]). split; [done|].
  intros Hza Hzd. eexists. split.
  - rewrite cell_map2, Hc1, Hc2. reflexivity.
  - by apply absent_rounds_zero.
Qed.

End model_missing_cells.

Section examples_missing_cells.
Import Supereeg Examples.

Lemma update_keeps_uninformed_cells_unknown_witness :
  ∃ h' m' num' den' q,
    update (H := unfiltered_helpers) model_ABC [subject_flat] "kurtosis" 10 store_zeros
      = (h', Ok m') ∧
    h' !! numerator m' = Some num' ∧ h' !! denominator m' = Some den' ∧
    Np.cell num' 0 1 = Some (Nat.iter 1 (λ a, Np.nan_to_zero a + 0)%float 0%float) ∧
    Np.cell den' 0 1 = Some (Nat.iter 1 (λ d, d + 0)%float 0%float) ∧
    Np.divide num' den' = Ok q ∧
    (Np.is_zero 0 → Np.is_zero 0 →
     ∃ x, Np.cell q 0 1 = Some x ∧ PrimFloat.is_nan x = true).
Proof.
  apply (update_keeps_uninformed_cells_unknown (H := unfiltered_helpers)
           (Hshape := helpers_with_shape _)
           model_ABC [subject_flat] "kurtosis" 10 store_zeros
           (Np.zeros 3 3) (Np.zeros 3 3) 0 1 0%float 0%float);
    try reflexivity.
  intros bo Hbo. apply list_elem_of_singleton in Hbo as ->.
  eexists. split; [vm_compute; reflexivity | reflexivity].
Defined.

End examples_missing_cells.

(** ** [predict]: the overlap of the subject with the model *)

Section model_overlap.
Import Supereeg.
Context {Loc : Type} `{EqDecision Loc} `{Helpers Loc}.
Context {Hshape : HelpersShape}.

Implicit Types (h : gmap positive ndarray) (self m : Model Loc) (bo : Brain.t Loc).

Lemma model_estimate_ok self bo force_update h :
  model_wf h self →
  ∃ c, model_estimate self bo force_update h = (h, Ok c) ∧
       Np.has_shape (n_locs self) (n_locs self) c.
Proof.
  intros (num & den & Hn & Hd & Hsn & Hsd). unfold model_estimate.
  destruct force_update.
  - destruct (expand_subject_shape (locs self)
                (Np.fill_diagonal (get_corrmat bo) 0) bo) as [Hx1 Hx2].
    destruct (expand_subject _ _ _) as [nx dx]. simpl in Hx1, Hx2.
    destruct (elementwise_ok PrimFloat.add _ _ num nx Hsn Hx1) as [Hadd1 Hs1].
    destruct (elementwise_ok PrimFloat.add _ _ den dx Hsd Hx2) as [Hadd2 Hs2].
    destruct (elementwise_ok PrimFloat.div _ _ _ _ Hs1 Hs2) as [Hdiv Hs3].
    unfold mbind, M_bind, lift, read. simpl. rewrite Hn, Hd. simpl.
    unfold Np.add, Np.divide. rewrite Hadd1, Hadd2. simpl. rewrite Hdiv. eauto.
  - destruct (elementwise_ok PrimFloat.div _ _ _ _ Hsn Hsd) as [Hdiv Hs3].
    unfold mbind, M_bind, lift, read. simpl. rewrite Hn, Hd. simpl.
    unfold Np.divide. rewrite Hdiv. eauto.
Qed.

Lemma all_count_overlapping self bo :
  all_ (count_overlapping self bo) = true ↔ ∀ x, x ∈ locs self → x ∈ Brain.locs bo.
Proof.
  unfold all_, count_overlapping. induction (locs self) as [|y l IH]; simpl.
  - split; [|done]. intros _ x Hx. by apply elem_of_nil in Hx.
  - rewrite andb_true_iff, IH, bool_decide_eq_true. split.
    + intros [Hy Hl] x [->|Hx]%elem_of_cons; auto.
    + intros Hall. split; [apply Hall; by left|]. intros x Hx. apply Hall. by right.
Qed.

(** C1.  Provided the arrays of the model and of the helpers have the size of
    the location set: whenever the locations of the subject, after snapping
    and filtering, contain every location of the model (in particular when
    the two location sets are equal), [predict] raises the assertion error
    "model is a complete subset of patient locations"; nothing is
    reconstructed and the store is as before. *)
Theorem predict_rejects_covered_model
    self bo nearest_neighbor match_threshold force_update kthreshold h :
  model_wf h self →
  (∀ x, x ∈ locs self →
        x ∈ Brain.locs (prepared self bo nearest_neighbor match_threshold kthreshold)) →
  predict self bo nearest_neighbor match_threshold force_update kthreshold h
    = (h, Raise (AssertionError "model is a complete subset of patient locations")).
Proof.
  intros Hwf Hcover. unfold predict. fold (prepared self bo nearest_neighbor
    match_threshold kthreshold) in *.
  set (bo' := prepared self bo nearest_neighbor match_threshold kthreshold) in *.
  destruct (model_estimate_ok self bo' force_update h Hwf) as (c & Hest & _).
  unfold mbind at 1. unfold M_bind. rewrite Hest.
  unfold mbind, M_bind, lift. unfold align.
  apply all_count_overlapping in Hcover. by rewrite Hcover.
Qed.

End model_overlap.

Section examples_overlap.
Import Supereeg Examples.

Lemma predict_rejects_covered_model_witness :
  predict model_ABC subject_ABC true Auto true 10 store_ABC
    = (store_ABC,
       Raise (AssertionError "model is a complete subset of patient locations")).
Proof.
  apply (predict_rejects_covered_model (H := example_helpers)
           (Hshape := example_helpers_shape)).
  - apply model_ABC_wf.
  - assert (Hlocs : Brain.locs (prepared model_ABC subject_ABC true Auto 10)
                    = [A; B; C]) by (vm_compute; reflexivity).
    rewrite Hlocs. simpl. auto.
Defined.

End examples_overlap.

(** ** Selections by position *)

Section index_facts.
Import Supereeg.
Context {A : Type}.

Implicit Types (l : list A) (inds js : list nat) (mask : list bool).

Lemma iloc_Ok l inds r :
  Np.iloc l inds = Ok r ↔ Forall2 (λ i y, l !! i = Some y) inds r.
Proof.
  unfold Np.iloc. rewrite <-mapM_Some.
  destruct (mapM (l !!.) inds); split; intros Heq; by simplify_eq.
Qed.

Lemma iloc_app l inds1 inds2 r1 r2 :
  Np.iloc l inds1 = Ok r1 → Np.iloc l inds2 = Ok r2 →
  Np.iloc l (inds1 ++ inds2) = Ok (r1 ++ r2).
Proof. rewrite !iloc_Ok. apply Forall2_app. Qed.

Lemma iloc_length l inds r : Np.iloc l inds = Ok r → length r = length inds.
Proof. rewrite iloc_Ok. intros Hall. symmetry. by eapply Forall2_length. Qed.

Lemma filter_none (P : nat → Prop) `{∀ i, Decision (P i)} (ns : list nat) :
  Forall (λ i, ¬ P i) ns → filter P ns = [].
Proof.
  induction 1 as [|i ns Hi _ IH]; [done|].
  by rewrite filter_cons_False.
Qed.

Lemma filter_seq_beyond (Q : nat → Prop) `{∀ i, Decision (Q i)} a k :
  (∀ i, Q i → i < a) → filter Q (seq 0 (a + k)) = filter Q (seq 0 a).
Proof.
  intros Hbound. rewrite seq_app, filter_app, (filter_none Q (seq _ k)).
  - by rewrite app_nil_r.
  - apply Forall_seq. intros i Hi HQ. apply Hbound in HQ. lia.
Qed.

Lemma filter_seq_bounds (Q : nat → Prop) `{∀ i, Decision (Q i)} a b :
  (∀ i, Q i → i < a) → (∀ i, Q i → i < b) →
  filter Q (seq 0 a) = filter Q (seq 0 b).
Proof.
  intros Ha Hb. destruct (decide (a ≤ b)).
  - replace b with (a + (b - a)) by lia. by rewrite filter_seq_beyond.
  - replace a with (b + (a - b)) by lia. by rewrite filter_seq_beyond.
Qed.

Lemma sorted_set_bounded js n :
  (∀ i, i ∈ js → i < n) → sorted_set js = filter (λ i, i ∈ js) (seq 0 n).
Proof.
  intros Hn. unfold sorted_set. apply filter_seq_bounds; [|done].
  intros i Hi. apply max_list_elem_of_le in Hi. lia.
Qed.

(** selecting the positions at which a property of the position holds, when
    it amounts to a property of the element there *)
Lemma iloc_filter_seq (Q : nat → Prop) `{∀ i, Decision (Q i)}
    (P : A → Prop) `{∀ x, Decision (P x)} l :
  (∀ i x, l !! i = Some x → (Q i ↔ P x)) →
  Np.iloc l (filter Q (seq 0 (length l))) = Ok (filter P l).
Proof.
  induction l as [|x l IH] using rev_ind; intros HQP; [done|].
  rewrite length_app. simpl. rewrite seq_app, !filter_app. simpl.
  apply iloc_app.
  - apply iloc_Ok. eapply Forall2_impl.
    + apply iloc_Ok, IH. intros i y Hy. apply HQP. by apply lookup_app_l_Some.
    + intros i y Hy. by apply lookup_app_l_Some.
  - assert (Hx : (l ++ [x]) !! length l = Some x) by apply list_lookup_middle, eq_refl.
    destruct (decide (Q (length l))) as [HQ|HQ].
    + rewrite filter_cons_True, filter_nil by done.
      rewrite filter_cons_True, filter_nil by (by apply (HQP (length l))).
      apply iloc_Ok. by repeat constructor.
    + rewrite filter_cons_False, filter_nil by done.
      rewrite filter_cons_False, filter_nil; [done|].
      intros HP. by apply HQ, (HQP (length l) x).
Qed.

Lemma elem_of_where mask i : i ∈ where_ mask ↔ mask !! i = Some true.
Proof.
  unfold where_. rewrite list_elem_of_filter, elem_of_seq. split; [by intros [? _]|].
  intros Hi. split; [done|]. apply lookup_lt_Some in Hi. lia.
Qed.

Section masks.
Context (f : A → bool) (l : list A).

Lemma where_fmap_lookup i x :
  l !! i = Some x → (i ∈ where_ (f <$> l) ↔ f x = true).
Proof.
  intros Hx. rewrite elem_of_where, list_lookup_fmap, Hx. simpl.
  split; [by intros [= ?] | by intros ->].
Qed.

Lemma where_fmap_bounded i : i ∈ where_ (f <$> l) → i < length l.
Proof.
  rewrite elem_of_where. intros Hi%lookup_lt_Some. by rewrite length_fmap in Hi.
Qed.

(** [l.iloc[np.where(mask)[0]]] *)
Lemma iloc_where :
  Np.iloc l (where_ (f <$> l)) = Ok (filter (λ x, f x = true) l).
Proof.
  unfold where_. rewrite length_fmap. apply iloc_filter_seq.
  intros i x Hx. rewrite list_lookup_fmap, Hx. simpl.
  split; [by intros [= ?] | by intros ->].
Qed.

(** [l.iloc[sorted(set(np.where(mask)[0]))]] *)
Lemma iloc_sorted_set_where :
  Np.iloc l (sorted_set (where_ (f <$> l))) = Ok (filter (λ x, f x = true) l).
Proof.
  rewrite (sorted_set_bounded _ (length l)) by apply where_fmap_bounded.
  apply iloc_filter_seq. intros i x Hx. by apply where_fmap_lookup.
Qed.

(** [l.iloc[sorted(set(range(len(l))) - set(np.where(mask)[0]))]] *)
Lemma iloc_sorted_range_minus_where :
  Np.iloc l (sorted_range_minus (length l) (where_ (f <$> l)))
    = Ok (filter (λ x, ¬ f x = true) l).
Proof.
  unfold sorted_range_minus. apply iloc_filter_seq.
  intros i x Hx. by rewrite (where_fmap_lookup i x).
Qed.

Lemma sum_fmap_filter : sum_ (f <$> l) = length (filter (λ x, f x = true) l).
Proof.
  unfold sum_. induction l as [|x l' IH]; [done|]. csimpl.
  destruct (f x) eqn:Hfx.
  - rewrite filter_cons_True by done. simpl. by rewrite IH.
  - rewrite filter_cons_False by (by rewrite Hfx). simpl. by rewrite IH.
Qed.

Lemma any_fmap_false :
  any_ (f <$> l) = false → ∀ x, x ∈ l → f x = false.
Proof.
  unfold any_. induction l as [|y l' IH]; csimpl.
  - intros _ x Hx. by apply elem_of_nil in Hx.
  - intros [Hy Hl]%orb_false_iff x [->|Hx]%elem_of_cons; [done|]. by apply IH.
Qed.

Lemma all_fmap_false :
  all_ (f <$> l) = false → ∃ x, x ∈ l ∧ f x = false.
Proof.
  unfold all_. induction l as [|y l' IH]; csimpl; [done|].
  destruct (f y) eqn:Hy; simpl.
  - intros (x & Hx & Hfx)%IH. exists x. split; [by right|done].
  - intros _. exists y. split; [by left|done].
Qed.

End masks.

End index_facts.

(** ** Selections and blocks of arrays *)

Section array_selection_facts.

Implicit Types (A B C : ndarray) (inds : list nat).

Lemma has_shape_rows n m A :
  Np.has_shape n m A ↔ length A = n ∧ Forall (λ r : list float, length r = m) A.
Proof.
  unfold Np.has_shape, Np.row_lengths. revert n.
  induction A as [|r A IH]; intros [|n]; csimpl; split.
  - done.
  - done.
  - done.
  - by intros [? _].
  - done.
  - by intros [? _].
  - intros [= <- Heq]. apply IH in Heq as [<- ?]. by split; [|constructor].
  - intros [[= <-] [<- HA]%Forall_cons]. f_equal. by apply IH.
Qed.

Lemma iloc_ok {X} (l : list X) inds :
  Forall (λ i, i < length l) inds → ∃ r, Np.iloc l inds = Ok r.
Proof.
  intros Hin. unfold Np.iloc.
  destruct (mapM_is_Some_2 (l !!.) inds) as [r ->]; [|by eexists].
  eapply Forall_impl; [exact Hin|]. intros i Hi. by apply lookup_lt_is_Some.
Qed.

Lemma select_cols_ok n m A inds :
  Np.has_shape n m A → Forall (λ i, i < m) inds →
  ∃ C, Np.select_cols A inds = Ok C ∧ Np.has_shape n (length inds) C.
Proof.
  intros [Hlen Hrows]%has_shape_rows Hin. unfold Np.select_cols.
  destruct (mapM (λ row : list float, mapM (row !!.) inds) A) as [C|] eqn:HC.
  - exists C. split; [done|]. apply has_shape_rows.
    apply mapM_Some in HC. split.
    + apply Forall2_length in HC. lia.
    + clear Hlen. induction HC as [|row r A C Hr _ IH]; [done|].
      apply Forall_cons in Hrows as [? ?]. constructor; [|by apply IH].
      apply mapM_Some, Forall2_length in Hr. done.
  - exfalso. apply mapM_None in HC. apply Exists_exists in HC as (row & Hrow & Hnone).
    rewrite Forall_forall in Hrows. specialize (Hrows row Hrow).
    apply mapM_None in Hnone. apply Exists_exists in Hnone as (i & Hi & Hnone).
    rewrite Forall_forall in Hin. specialize (Hin i Hi).
    apply lookup_ge_None in Hnone. lia.
Qed.

Lemma permute_ok n A inds :
  Np.has_shape n n A → Forall (λ i, i < n) inds →
  ∃ C, Np.permute A inds = Ok C ∧ Np.has_shape (length inds) (length inds) C.
Proof.
  intros HA Hin. unfold Np.permute.
  destruct (select_cols_ok n n A inds HA Hin) as (C & -> & [Hlen Hrows]%has_shape_rows).
  simpl. destruct (iloc_ok C inds) as [R HR]; [by rewrite Hlen|].
  exists R. split; [done|]. apply has_shape_rows. split.
  - by eapply iloc_length.
  - apply iloc_Ok in HR. rewrite Forall_forall in Hrows.
    apply Forall_forall. intros r Hr.
    apply list_elem_of_lookup in Hr as [k Hk].
    destruct (Forall2_lookup_r _ _ _ _ _ HR Hk) as (i & _ & Hi).
    apply Hrows. by eapply list_elem_of_lookup_2.
Qed.

Lemma set_leading_block_ok n k C B :
  Np.has_shape (n + k) (n + k) C → Np.has_shape n n B →
  ∃ C', Np.set_leading_block C B = Ok C'.
Proof.
  intros [HlC HrC]%has_shape_rows [HlB HrB]%has_shape_rows.
  unfold Np.set_leading_block. rewrite bool_decide_eq_true_2; [by eexists|].
  rewrite HlB, HlC. split; [lia|]. split; [|done].
  apply Forall_take. eapply Forall_impl; [exact HrC|]. intros r Hr. simpl in Hr. lia.
Qed.

Lemma hstack_ok A B : length A = length B → ∃ C, Np.hstack A B = Ok C.
Proof. intros Hlen. unfold Np.hstack. rewrite decide_True by done. by eexists. Qed.

End array_selection_facts.

(** ** The alignment *)

Section alignment_facts.
Import Supereeg.
Context {Loc : Type} `{EqDecision Loc} `{Helpers Loc}.
Context {Hshape : HelpersShape} {Hpredict : HelpersPredictShape}.

Implicit Types (h : gmap positive ndarray) (self m : Model Loc) (bo : Brain.t Loc).
Implicit Types (l bl U K : list Loc).

Lemma iloc_in_range {X} (l : list X) inds r :
  Np.iloc l inds = Ok r → Forall (λ i, i < length l) inds.
Proof.
  rewrite iloc_Ok. intros Hall. apply Forall_forall. intros i Hi.
  apply list_elem_of_lookup in Hi as [k Hk].
  destruct (Forall2_lookup_l _ _ _ _ _ Hall Hk) as (y & _ & Hy).
  by eapply lookup_lt_Some.
Qed.

Lemma elem_of_unknown_of bl l x : x ∈ unknown_of bl l ↔ x ∈ l ∧ x ∉ bl.
Proof.
  unfold unknown_of. rewrite list_elem_of_filter, bool_decide_eq_true. tauto.
Qed.

Lemma elem_of_joint_of bl l x : x ∈ joint_of bl l ↔ x ∈ l ∧ x ∈ bl.
Proof.
  unfold joint_of. rewrite list_elem_of_filter, bool_decide_eq_true. tauto.
Qed.

Lemma unknown_joint_perm bl l : unknown_of bl l ++ joint_of bl l ≡ₚ l.
Proof.
  unfold unknown_of, joint_of. rewrite (comm (++)).
  apply (filter_app_complement (λ x, bool_decide (x ∈ bl) = true)).
Qed.

Lemma unknown_joint_length bl l :
  length (unknown_of bl l) + length (joint_of bl l) = length l.
Proof. by rewrite <-length_app, unknown_joint_perm. Qed.

(** when as many model locations are matched as the subject has locations,
    the matched locations are the subject's *)
Lemma joint_of_perm bl l :
  NoDup l → NoDup bl → length (joint_of bl l) = length bl → joint_of bl l ≡ₚ bl.
Proof.
  intros Hl Hbl Hlen. apply submseteq_length_Permutation; [|lia].
  apply NoDup_submseteq; [by apply NoDup_filter|].
  intros x. rewrite elem_of_joint_of. tauto.
Qed.

(** the permutation of the model: the unknown locations, then the joint ones *)
Lemma perm_inds_iloc bl l :
  Np.iloc l
    (sorted_range_minus (length l) (where_ ((λ x, bool_decide (x ∈ bl)) <$> l))
     ++ sorted_set (where_ ((λ x, bool_decide (x ∈ bl)) <$> l)))
  = Ok (unknown_of bl l ++ joint_of bl l).
Proof.
  apply iloc_app.
  - apply (iloc_sorted_range_minus_where (λ x, bool_decide (x ∈ bl))).
  - apply (iloc_sorted_set_where (λ x, bool_decide (x ∈ bl))).
Qed.

Lemma perm_inds_length bl l :
  length (sorted_range_minus (length l) (where_ ((λ x, bool_decide (x ∈ bl)) <$> l))
          ++ sorted_set (where_ ((λ x, bool_decide (x ∈ bl)) <$> l)))
  = length l.
Proof.
  rewrite <-(iloc_length _ _ _ (perm_inds_iloc bl l)).
  by rewrite unknown_joint_perm.
Qed.

Lemma subject_perm l bl :
  filter (λ x, ¬ negb (bool_decide (x ∈ l)) = true) bl
  ++ filter (λ x, negb (bool_decide (x ∈ l)) = true) bl ≡ₚ bl.
Proof.
  rewrite (comm (++)).
  apply (filter_app_complement (λ x, negb (bool_decide (x ∈ l)) = true)).
Qed.

Lemma labels_ok n k :
  Forall is_label (replicate n "reconstructed"%string ++ replicate k "observed"%string).
Proof.
  apply Forall_app. split; apply Forall_replicate; [by right | by left].
Qed.

(** The alignment succeeds on a subject that leaves some location of the
    model unknown, and yields the unknown locations of the model followed by
    the locations of the subject, labelled accordingly. *)
Lemma align_ok self bo c :
  Np.has_shape (n_locs self) (n_locs self) c →
  NoDup (locs self) → NoDup (Brain.locs bo) →
  Forall (λ row : list float, length row = length (Brain.locs bo)) (Brain.data bo) →
  all_ (count_overlapping self bo) = false →
  ∃ al U K,
    align self bo c = Ok al ∧
    perm_locs al = U ++ K ∧
    loc_label al = replicate (length U) "reconstructed"%string
                   ++ replicate (length K) "observed"%string ∧
    (∀ x, x ∈ U ↔ x ∈ locs self ∧ x ∉ Brain.locs bo) ∧
    NoDup U ∧ K ≡ₚ Brain.locs bo ∧
    length (Brain.data (aligned_bo al)) = length (Brain.data bo).
Proof.
  intros Hc Hl Hbl Hdata Hall. unfold align. rewrite Hall.
  set (l := locs self) in *. set (bl := Brain.locs bo) in *.
  unfold count_overlapping. fold l bl.
  destruct (any_ _) eqn:Hany; simpl.
  2:{ (* no overlap *)
    pose proof (any_fmap_false _ _ Hany) as Hnone.
    destruct (expand_predict_shape c (rbf (l ++ bl) l)) as [Hn Hd].
    destruct (expand_corrmat_predict c (rbf (l ++ bl) l)) as [nx dx]. simpl in Hn, Hd.
    destruct (elementwise_ok PrimFloat.div _ _ nx dx Hn Hd) as [Hdiv _].
    unfold Np.divide. rewrite Hdiv. simpl.
    eexists _, l, bl. split; [done|]. simpl. split; [done|]. split; [done|].
    split; [|done]. intros x. split; [|tauto]. intros Hx. split; [done|].
    specialize (Hnone x Hx). by apply bool_decide_eq_false in Hnone. }
  pose proof (perm_inds_iloc bl l) as Hperm.
  pose proof (perm_inds_length bl l) as Hplen.
  pose proof (iloc_in_range _ _ _ Hperm) as Hrange.
  set (perm_inds := sorted_range_minus (length l) _ ++ sorted_set _) in *.
  destruct (permute_ok _ c perm_inds Hc Hrange) as (cp & Hcp & Hscp).
  rewrite sum_fmap_filter. fold (joint_of bl l).
  assert (HU : ∀ x, x ∈ unknown_of bl l ↔ x ∈ l ∧ x ∉ bl)
    by apply elem_of_unknown_of.
  assert (HUd : NoDup (unknown_of bl l)) by (by apply NoDup_filter).
  destruct (decide (length (joint_of bl l) = length bl)) as [Hsum|Hsum].
  - (* the subject inside the model *)
    rewrite Hcp. simpl. rewrite Hperm. simpl.
    eexists _, (unknown_of bl l), (joint_of bl l). split; [done|]. simpl.
    split; [done|]. split.
    { f_equal; f_equal; [|done].
      pose proof (unknown_joint_length bl l). unfold l, bl in *. lia. }
    split; [done|]. split; [done|]. split; [|done]. by apply joint_of_perm.
  - (* partial overlap *)
    rewrite Hcp. simpl. rewrite Hperm. simpl.
    rewrite <-!list_fmap_compose.
    set (g := negb ∘ (λ x, bool_decide (x ∈ l))).
    pose proof (iloc_where g bl) as Hsub.
    pose proof (iloc_app _ _ _ _ _ (iloc_sorted_range_minus_where g bl)
                  (iloc_sorted_set_where g bl)) as Hbo.
    pose proof (iloc_in_range _ _ _ Hbo) as Hborange.
    pose proof (iloc_length _ _ _ Hbo) as Hbolen.
    rewrite Hsub. simpl. rewrite Hbo. simpl.
    set (bo_perm_inds := sorted_range_minus (length bl) _ ++ sorted_set _) in *.
    destruct (select_cols_ok (length (Brain.data bo)) (length bl) (Brain.data bo)
                bo_perm_inds) as (dp & Hdp & Hsdp); [by apply has_shape_rows|done|].
    rewrite Hdp. simpl.
    set (W := rbf _ _).
    destruct (expand_predict_shape cp W) as [Hn Hd].
    destruct (expand_corrmat_predict cp W) as [nx dx]. simpl in Hn, Hd.
    destruct (elementwise_ok PrimFloat.div _ _ nx dx Hn Hd) as [Hdiv Hsq].
    unfold Np.divide. rewrite Hdiv. simpl.
    assert (HW : length W
                 = length perm_inds + length (filter (λ x, g x = true) bl)).
    { unfold W. by rewrite rbf_rows, !length_app, unknown_joint_length, Hplen. }
    rewrite HW in Hsq.
    destruct (set_leading_block_ok _ _ _ cp Hsq Hscp) as (cb & ->). simpl.
    pose proof (iloc_sorted_range_minus_where (λ x, bool_decide (x ∈ bl)) l) as Hunk.
    rewrite Hunk. simpl.
    eexists _, (unknown_of bl l), _. split; [done|]. simpl.
    split; [done|]. split; [done|]. split; [done|]. split; [done|].
    split; [apply subject_perm|].
    apply has_shape_rows in Hsdp as [? _]. done.
Qed.

Lemma reconstruct_ok (al : alignment Loc) :
  ∃ bo_p, reconstruct al = Ok bo_p ∧
          Brain.locs bo_p = perm_locs al ∧ Brain.label bo_p = loc_label al.
Proof.
  unfold reconstruct.
  destruct (hstack_ok
    (timeseries_recon (aligned_bo al)
       (Np.fill_diagonal (Np.map_cells z2r (model_corrmat_x al)) 0))
    (zscore (Brain.data (aligned_bo al)))) as [act ->].
  - by rewrite timeseries_recon_rows, zscore_rows.
  - simpl. by eexists.
Qed.

Lemma labelled_lookup U K bl p x :
  (∀ y, y ∈ U → y ∉ bl) → (∀ y, y ∈ K → y ∈ bl) →
  (U ++ K) !! p = Some x →
  ((replicate (length U) "reconstructed"%string
    ++ replicate (length K) "observed"%string) !! p = Some "observed"%string
   ↔ x ∈ bl).
Proof.
  intros HU HK Hx. destruct (decide (p < length U)) as [Hp|Hp].
  - rewrite lookup_app_l in Hx by done.
    rewrite lookup_app_l by (by rewrite length_replicate).
    rewrite lookup_replicate_2 by done.
    apply list_elem_of_lookup_2 in Hx. split; [done|]. intros Hin. by apply HU in Hx.
  - rewrite lookup_app_r in Hx by lia.
    rewrite lookup_app_r by (rewrite length_replicate; lia).
    rewrite length_replicate.
    pose proof (lookup_lt_Some _ _ _ Hx).
    rewrite lookup_replicate_2 by done.
    apply list_elem_of_lookup_2 in Hx. split; [auto|done].
Qed.

(** C3.  Provided the arrays of the model and of the helpers have the size of
    the location set, the location sets of the model and of the subject have
    no duplicates, the subject has a column of data per location, and some
    location of the model is not among the subject's: in each of the three
    branches of the alignment [predict] returns a brain object whose
    location ordering holds every location of the model and every location
    of the subject exactly once and nothing else, with one label per
    location, each "observed" or "reconstructed"; the locations labelled
    "observed" are those of the subject. *)
Theorem predict_orders_every_location_once
    self bo nearest_neighbor match_threshold force_update kthreshold h :
  let bo' := prepared self bo nearest_neighbor match_threshold kthreshold in
  model_wf h self →
  NoDup (locs self) → NoDup (Brain.locs bo') →
  Forall (λ row : list float, length row = length (Brain.locs bo')) (Brain.data bo') →
  (∃ x, x ∈ locs self ∧ x ∉ Brain.locs bo') →
  ∃ bo_p,
    predict self bo nearest_neighbor match_threshold force_update kthreshold h
      = (h, Ok bo_p) ∧
    NoDup (Brain.locs bo_p) ∧
    (∀ x, x ∈ Brain.locs bo_p ↔ x ∈ locs self ∨ x ∈ Brain.locs bo') ∧
    length (Brain.label bo_p) = length (Brain.locs bo_p) ∧
    Forall is_label (Brain.label bo_p) ∧
    (∀ p x, Brain.locs bo_p !! p = Some x →
            (Brain.label bo_p !! p = Some "observed"%string ↔ x ∈ Brain.locs bo')).
Proof.
  intros bo' Hwf Hl Hbl Hdata (x0 & Hx0 & Hx0').
  destruct (model_estimate_ok self bo' force_update h Hwf) as (c & Hest & Hc).
  assert (Hall : all_ (count_overlapping self bo') = false).
  { destruct (all_ _) eqn:Hall; [|done].
    exfalso. apply Hx0'. by apply (all_count_overlapping self bo'). }
  destruct (align_ok self bo' c Hc Hl Hbl Hdata Hall)
    as (al & U & K & Hal & Hlocs & Hlab & HU & HUd & HK & _).
  destruct (reconstruct_ok al) as (bo_p & Hrec & Hpl & Hpb).
  exists bo_p. split.
  { unfold predict. fold (prepared self bo nearest_neighbor match_threshold kthreshold).
    fold bo'. unfold mbind at 1. unfold M_bind. rewrite Hest.
    unfold mbind, M_bind, lift. rewrite Hal. by rewrite Hrec. }
  rewrite Hpl, Hpb, Hlocs, Hlab.
  assert (HKin : ∀ y, y ∈ K ↔ y ∈ Brain.locs bo') by (intros y; by rewrite HK).
  split; [|split; [|split; [|split]]].
  - apply NoDup_app. split; [done|]. split; [|by rewrite HK].
    intros y Hy Hy'. apply HU in Hy as [_ Hy]. by apply Hy, HKin.
  - intros y. rewrite elem_of_app, HU, HKin.
    destruct (decide (y ∈ Brain.locs bo')); tauto.
  - by rewrite !length_app, !length_replicate.
  - apply labels_ok.
  - intros p y. apply labelled_lookup.
    + intros z Hz. by apply HU in Hz as [_ ?].
    + intros z Hz. by apply HKin.
Qed.

End alignment_facts.

(** a decidable statement about concrete data, settled by evaluation *)
Ltac by_evaluation :=
  match goal with |- ?P => apply (bool_decide_unpack P); vm_compute; exact I end.

Section examples_alignment.
Import Supereeg Examples.

Lemma predict_orders_every_location_once_witness :
  ∃ bo_p,
    predict model_ABC subject_CAD false Auto false 10 store_ABC = (store_ABC, Ok bo_p) ∧
    NoDup (Brain.locs bo_p) ∧
    (∀ x, x ∈ Brain.locs bo_p ↔
          x ∈ locs model_ABC ∨ x ∈ Brain.locs (prepared model_ABC subject_CAD false Auto 10)) ∧
    length (Brain.label bo_p) = length (Brain.locs bo_p) ∧
    Forall is_label (Brain.label bo_p) ∧
    (∀ p x, Brain.locs bo_p !! p = Some x →
            (Brain.label bo_p !! p = Some "observed"%string ↔
             x ∈ Brain.locs (prepared model_ABC subject_CAD false Auto 10))).
Proof.
  apply (predict_orders_every_location_once (H := example_helpers)
           (Hshape := example_helpers_shape)
           (Hpredict := helpers_with_predict_shape _)
           model_ABC subject_CAD false Auto false 10 store_ABC).
  - apply model_ABC_wf.
  - by_evaluation.
  - by_evaluation.
  - by_evaluation.
  - exists B. split; by_evaluation.
Defined.

End examples_alignment.

(** ** The known block and the channels of the subject *)

Section examples_known_block.
Import Supereeg Examples.

(** C6 fails on the code.  The subject [subject_CA] is recorded at [C] and
    [A], in this order, both locations of the model over [A], [B], [C]
    (subset overlap).  The alignment orders the known block of the matrix as
    the model does, [A] then [C]; the channels of the subject stay in the
    order [C] then [A], and this is the order of the observed columns that
    [predict] z-scores and appends: the column returned for [A] holds the
    recordings made at [C].  With the further location [D] (partial
    overlap) the known block is [A], [C], [D] against the channels [C],
    [A], [D]. *)
Theorem known_block_follows_model_order :
  (∃ c al bo_p,
     (model_estimate model_ABC subject_CA false store_ABC).2 = Ok c ∧
     align model_ABC subject_CA c = Ok al ∧
     known_block al = [A; C] ∧
     Brain.locs (aligned_bo al) = [C; A] ∧
     (predict model_ABC subject_CA false Auto false 10 store_ABC).2 = Ok bo_p ∧
     Brain.locs bo_p = [B; A; C] ∧
     Brain.label bo_p = ["reconstructed"; "observed"; "observed"]%string ∧
     SuperEEG.column (Brain.data bo_p) 1
       = SuperEEG.column (zscore (Brain.data subject_CA)) 0) ∧
  (∃ c al,
     (model_estimate model_ABC subject_CAD false store_ABC).2 = Ok c ∧
     align model_ABC subject_CAD c = Ok al ∧
     known_block al = [A; C; D] ∧
     Brain.locs (aligned_bo al) = [C; A; D]).
Proof.
  split.
  - eexists _, _, _. split; [vm_compute; reflexivity|].
    split; [vm_compute; reflexivity|].
    split; [reflexivity|]. split; [reflexivity|].
    split; [vm_compute; reflexivity|].
    split; [reflexivity|]. split; [reflexivity|]. vm_compute. reflexivity.
  - eexists _, _. split; [vm_compute; reflexivity|].
    split; [vm_compute; reflexivity|].
    split; reflexivity.
Qed.

(** when the subject lists its locations in the order of the model, the known
    block and the channels agree *)
Lemma known_block_of_ordered_subject :
  ∃ c al,
    (model_estimate model_ABC subject_AB false store_ABC).2 = Ok c ∧
    align model_ABC subject_AB c = Ok al ∧
    known_block al = [A; B] ∧
    Brain.locs (aligned_bo al) = [A; B].
Proof.
  eexists _, _. split; [vm_compute; reflexivity|].
  split; [vm_compute; reflexivity|]. split; reflexivity.
Qed.

End examples_known_block.

(** ** Construction of a brain object *)

Section brain_facts.
Import SuperEEG.
Variable kurt_vals : Brain → list float.

(** C5, as the code has it.  [Brain.__init__] does not compare the number of
    channels of the timeseries with the number of locations: whenever the
    locations have three coordinates each, the sessions are accepted and the
    first sample rate is not zero, the object is constructed, whatever the
    two numbers are; it records the columns of the data as [n_elecs] and
    keeps the locations as given. *)
Theorem brain_init_does_not_compare_shapes
    data locs sessions sample_rate self_locs self_sessions r :
  DataFrame_xyz locs = Ok self_locs →
  session_series (shape0 (DataFrame data)) sessions = Ok self_sessions →
  first (sample_rates self_sessions sample_rate).2 = Ok r →
  PrimFloat.eqb r 0 = false →
  ∃ b, (__init__ kurt_vals data locs sessions sample_rate).2 = Ok b ∧
       n_elecs b = shape1 (DataFrame data) ∧
       SuperEEG.data b = DataFrame data ∧
       SuperEEG.locs b = self_locs.
Proof.
  intros Hlocs Hsess Hfirst Hr. unfold __init__. rewrite Hlocs, Hsess.
  destruct (sample_rates self_sessions sample_rate) as [warnings rates].
  simpl in *. rewrite Hfirst. simpl. unfold true_divide. rewrite Hr. simpl.
  by eexists.
Qed.

(** with at least one sample and no sample rate, the rate defaults to 1000
    for every entry of the sessions, with a warning, and [n_secs] is the
    number of samples divided by 1000 *)
Lemma brain_init_default_rate data locs sessions self_locs s self_sessions :
  DataFrame_xyz locs = Ok self_locs →
  session_series (shape0 (DataFrame data)) sessions = Ok (s :: self_sessions) →
  ∃ b, __init__ kurt_vals data locs sessions RateNone
         = (["No sample rate given.  Setting sample rate to 1000"%string], Ok b) ∧
       SuperEEG.sample_rate b = replicate (length (s :: self_sessions)) 1000%float ∧
       n_secs b = (float_of_nat (shape0 (DataFrame data)) / 1000)%float.
Proof.
  intros Hlocs Hsess. unfold __init__. rewrite Hlocs, Hsess. simpl.
  eexists. split; [reflexivity|]. simpl. split; [|done].
  f_equal. apply (fmap_const_replicate 1000%float self_sessions).
Qed.

(** C10 fails on the code for a recording without samples.  With no data and
    no sample rate (the defaults of every argument) the list of rates is
    empty, its first entry is asked for, and the construction ends in an
    [IndexError] after the warning; the branch for a sample rate given as a
    number passes the same point on the same data, with [n_secs = 0]. *)
Theorem brain_init_default_rate_without_samples :
  __init__ kurt_vals None None SessionsNone RateNone
    = (["No sample rate given.  Setting sample rate to 1000"%string],
       Raise IndexError) ∧
  ∃ b, __init__ kurt_vals None None SessionsNone (RateNumber 1000) = ([], Ok b) ∧
       SuperEEG.sample_rate b = [1000%float] ∧ n_secs b = 0%float.
Proof.
  split.
  - unfold __init__. simpl. reflexivity.
  - eexists. split; [reflexivity|]. split; reflexivity.
Qed.

End brain_facts.

Section examples_brain.
Import SuperEEG Examples.

Lemma brain_init_does_not_compare_shapes_witness :
  ∃ b, (__init__ kurt_vals_spec (Some two_channels) (Some three_locations)
                 SessionsNone (RateNumber 1000)).2 = Ok b ∧
       n_elecs b = shape1 (DataFrame (Some two_channels)) ∧
       SuperEEG.data b = DataFrame (Some two_channels) ∧
       SuperEEG.locs b = three_locations.
Proof.
  apply (brain_init_does_not_compare_shapes kurt_vals_spec
           (Some two_channels) (Some three_locations) SessionsNone (RateNumber 1000)
           three_locations (replicate 5 (SessionInt 1)) 1000%float);
    reflexivity.
Defined.

(** two channels and three locations: the shapes do not match, and the
    object is constructed *)
Lemma brain_init_accepts_mismatched_shapes :
  shape1 (DataFrame (Some two_channels)) = 2 ∧ length three_locations = 3 ∧
  ∃ b, (__init__ kurt_vals_spec (Some two_channels) (Some three_locations)
                 SessionsNone (RateNumber 1000)).2 = Ok b ∧
       n_elecs b = 2 ∧ length (SuperEEG.locs b) = 3.
Proof.
  split; [reflexivity|]. split; [reflexivity|].
  eexists. split; [vm_compute; reflexivity|]. split; reflexivity.
Qed.

End examples_brain.

(** ** The driver *)

Section recon_facts.
Import Recon.

Implicit Types (s : surroundings) (w : world).

Ltac run_step :=
  unfold mbind, run_bind, mret, run_ret, np_load, isdir, isfile, mkdir, print,
    savemat; simpl.

(** when the file that the driver tests for is there, the driver prints
    "gif exists" and saves nothing *)
Lemma main_skips_on_tested_file s fname file_name r k_thresh w :
  fname ∈ files w → gif_dir s file_name ∉ files w →
  tested_file s file_name ∈ files w →
  ∃ w', main s fname file_name r k_thresh w = (w', Ok ()) ∧
        files w' = files w ∧ saved w' = saved w ∧
        stdout w' = stdout w ++ ["gif exists"%string].
Proof.
  intros Hfname Hdir Htested. unfold main. run_step.
  rewrite (bool_decide_eq_true_2 _ Hfname).
  destruct (bool_decide (gif_dir s file_name ∈ dirs w)) eqn:Hd; simpl.
  - rewrite (bool_decide_eq_true_2 _ Htested). simpl. by eexists.
  - rewrite bool_decide_eq_false_2.
    2:{ apply bool_decide_eq_false in Hd. tauto. }
    simpl. rewrite (bool_decide_eq_true_2 _ Htested). simpl. by eexists.
Qed.

(** with fewer than two channels the driver saves nothing; it prints the
    diagnostic when [good_chans] hands back an array *)
Lemma main_saves_nothing_below_two_channels s fname file_name r k_thresh w :
  surviving (good_chans s (sub_file s file_name) k_thresh) < 2 →
  saved (main s fname file_name r k_thresh w).1 = saved w ∧
  files (main s fname file_name r k_thresh w).1 = files w.
Proof.
  intros Hfew. unfold main. fold (sub_file s file_name). run_step.
  destruct (bool_decide (fname ∈ files w)); simpl; [|done].
  destruct (bool_decide (gif_dir s file_name ∈ dirs w)); simpl.
  - destruct (bool_decide (tested_file s file_name ∈ files w)); simpl; [done|].
    destruct (bool_decide (sub_file s file_name ∈ files w)); simpl; [|done].
    destruct (good_chans s (sub_file s file_name) k_thresh) as [|R]; simpl in *; [done|].
    rewrite decide_False by lia. done.
  - destruct (bool_decide (_ ∨ _)); simpl; [done|].
    destruct (bool_decide (tested_file s file_name ∈ files w)); simpl; [done|].
    destruct (bool_decide (sub_file s file_name ∈ files w)); simpl; [|done].
    destruct (good_chans s (sub_file s file_name) k_thresh) as [|R]; simpl in *; [done|].
    rewrite decide_False by lia. done.
Qed.


End recon_facts.

Section examples_recon.
Import Recon Examples.

(** C9 fails on the code in both parts.  When no channel passes,
    [good_chans] hands back the empty list and the driver ends without a
    word: nothing is printed.  And the driver tests for a file it never
    writes: with the output [gif_df.mat] of an earlier run in place, it runs
    the pipeline and saves the output again. *)
Theorem main_silent_and_blind_to_its_output :
  (surviving (good_chans no_channel (sub_file no_channel "s1") "10") = 0 ∧
   (main no_channel "/data/s1.npz" "s1" "20" "10" first_run).2 = Ok () ∧
   stdout (main no_channel "/data/s1.npz" "s1" "20" "10" first_run).1 = [] ∧
   saved (main no_channel "/data/s1.npz" "s1" "20" "10" first_run).1 = []) ∧
  (outfile three_channels "s1" ∈ files second_run ∧
   (main three_channels "/data/s1.npz" "s1" "20" "10" second_run).2 = Ok () ∧
   stdout (main three_channels "/data/s1.npz" "s1" "20" "10" second_run).1 = [] ∧
   saved (main three_channels "/data/s1.npz" "s1" "20" "10" second_run).1
     = [outfile three_channels "s1"]).
Proof.
  split.
  - split; [reflexivity|]. split; [vm_compute; reflexivity|].
    split; vm_compute; reflexivity.
  - split; [by_evaluation|]. split; [vm_compute; reflexivity|].
    split; vm_compute; reflexivity.
Qed.

(** with one channel the diagnostic is printed, and with the tested file in
    place the run is skipped *)
Lemma main_on_examples :
  stdout (main one_channel "/data/s1.npz" "s1" "20" "10" first_run).1
    = ["not enough electrodes pass k = 10"%string] ∧
  stdout (main three_channels "/data/s1.npz" "s1" "20" "10" marked_run).1
    = ["gif exists"%string] ∧
  saved (main three_channels "/data/s1.npz" "s1" "20" "10" marked_run).1 = [].
Proof. split; [|split]; vm_compute; reflexivity. Qed.

End examples_recon.

(** * Further properties *)

(** ** [update] on no subject, in one call or in two, and the subject count *)

Section update_composition.
Import Supereeg.
Context {Loc : Type} `{EqDecision Loc} `{Helpers Loc}.

Implicit Types (h : gmap positive ndarray) (self m : Model Loc) (bo : Brain.t Loc).

Lemma update_rounds_app model_locs measure threshold d1 d2 : ∀ num den,
  update_rounds model_locs measure threshold (d1 ++ d2) num den
  = nd ← update_rounds model_locs measure threshold d1 num den;
    update_rounds model_locs measure threshold d2 nd.1 nd.2.
Proof.
  induction d1 as [|bo d1 IH]; intros num den; simpl; [done|].
  destruct (update_round model_locs measure threshold bo num den) as [nd|e]; simpl;
    [apply IH | done].
Qed.

(** [update] with an empty list returns a copy: a model with new arrays that
    hold what the arrays of [self] hold, the same locations and the same
    subject count. *)
Theorem update_without_subjects_copies self measure threshold h num den :
  h !! numerator self = Some num → h !! denominator self = Some den →
  ∃ h' m',
    update self [] measure threshold h = (h', Ok m') ∧
    h' !! numerator m' = Some num ∧ h' !! denominator m' = Some den ∧
    h !! numerator m' = None ∧ h !! denominator m' = None ∧
    locs m' = locs self ∧ n_subs m' = n_subs self.
Proof.
  intros Hn Hd.
  pose proof (update_spec self [] measure threshold h num den Hn Hd) as Hspec.
  simpl in Hspec. destruct Hspec as (h' & m' & Hrun & Hn' & Hd' & Hlocs).
  destruct (update_frame self [] measure threshold h) as [_ Hnew].
  rewrite Hrun in Hnew. destruct (Hnew m' eq_refl) as (? & ? & _ & Hsubs).
  exists h', m'. simpl in Hsubs. rewrite Z.add_0_r in Hsubs. done.
Qed.

(** One call of [update] with the subjects of two lists does what two calls
    in a row do: both raise the same exception, or both return models whose
    arrays hold the same numbers, with the same locations and subject count. *)
Theorem update_in_one_call_or_two self d1 d2 measure threshold h num den :
  h !! numerator self = Some num → h !! denominator self = Some den →
  match (update self (d1 ++ d2) measure threshold h).2,
        ((m ← update self d1 measure threshold;
          update m d2 measure threshold) h).2 with
  | Ok m1, Ok m2 =>
      ∃ num' den',
        (update self (d1 ++ d2) measure threshold h).1 !! numerator m1 = Some num' ∧
        ((m ← update self d1 measure threshold;
          update m d2 measure threshold) h).1 !! numerator m2 = Some num' ∧
        (update self (d1 ++ d2) measure threshold h).1 !! denominator m1 = Some den' ∧
        ((m ← update self d1 measure threshold;
          update m d2 measure threshold) h).1 !! denominator m2 = Some den' ∧
        locs m1 = locs m2 ∧ n_subs m1 = n_subs m2
  | Raise e1, Raise e2 => e1 = e2
  | _, _ => False
  end.
Proof.
  intros Hn Hd.
  pose proof (update_spec self (d1 ++ d2) measure threshold h num den Hn Hd) as H12.
  pose proof (update_spec self d1 measure threshold h num den Hn Hd) as H1.
  pose proof (update_frame self (d1 ++ d2) measure threshold h) as [_ F12].
  pose proof (update_frame self d1 measure threshold h) as [_ F1].
  rewrite update_rounds_app in H12.
  unfold mbind, M_bind.
  destruct (update_rounds (locs self) measure threshold d1 num den) as [nd1|e1].
  - destruct H1 as (h1 & m1 & Hrun1 & Hn1 & Hd1 & Hlocs1).
    rewrite Hrun1 in F1 |- *. destruct (F1 m1 eq_refl) as (_ & _ & _ & Hsubs1).
    pose proof (update_spec m1 d2 measure threshold h1 nd1.1 nd1.2 Hn1 Hd1) as H2.
    pose proof (update_frame m1 d2 measure threshold h1) as [_ F2].
    rewrite Hlocs1 in H2. simpl in H12.
    destruct (update_rounds (locs self) measure threshold d2 nd1.1 nd1.2) as [nd|e].
    + destruct H12 as (h12 & m12 & Hrun12 & Hn12 & Hd12 & Hlocs12).
      destruct H2 as (h2 & m2 & Hrun2 & Hn2 & Hd2 & Hlocs2).
      rewrite Hrun12 in F12 |- *. rewrite Hrun2 in F2 |- *. simpl.
      destruct (F12 m12 eq_refl) as (_ & _ & _ & Hsubs12).
      destruct (F2 m2 eq_refl) as (_ & _ & _ & Hsubs2).
      exists nd.1, nd.2. do 4 (split; [done|]). split; [congruence|].
      rewrite Hsubs12, Hsubs2, Hsubs1, length_app. lia.
    + destruct H12 as (h12 & ->). destruct H2 as (h2 & ->). done.
  - destruct H1 as (h1 & ->). simpl in H12. destruct H12 as (h12 & ->). done.
Qed.

Lemma init_fit_result data locs template measure threshold h h' mo :
  __init__ data locs template measure threshold None None None h = (h', Ok mo) →
  n_subs mo = Z.of_nat (length data) ∧ Supereeg.locs mo = default (load_nifti template) locs.
Proof.
  unfold __init__. simpl. unfold mbind, M_bind, mret, M_ret, lift, alloc. simpl.
  destruct (fit_loop _ measure threshold data _ _) as [nd|e]; simpl; [|done].
  intros [= _ <-]. simpl. by destruct locs.
Qed.

Lemma update_all_counts calls : ∀ self h h' m,
  update_all self calls h = (h', Ok m) →
  n_subs m = (n_subs self
              + Z.of_nat (sum_list ((λ c : list (Brain.t Loc) * string * float,
                                       length c.1.1) <$> calls)))%Z ∧
  locs m = locs self.
Proof.
  induction calls as [|[[data measure] threshold] calls IH]; intros self h h' m; simpl.
  - intros [= _ <-]. split; [csimpl; lia|done].
  - unfold mbind, M_bind.
    pose proof (update_frame self data measure threshold h) as [_ F].
    destruct (update self data measure threshold h) as [h1 [m1|e]]; [|done].
    destruct (F m1 eq_refl) as (_ & _ & Hlocs & Hsubs).
    intros Hrun. apply IH in Hrun as [-> ->]. split; [|done].
    rewrite Hsubs. csimpl. unfold fmap. lia.
Qed.

(** The subject count is the number of subjects handed over: after a model is
    fitted from a list of subjects and updated by any sequence of calls,
    [n_subs] is the length of the first list plus the lengths of all the
    others, and the locations are those the model was created with. *)
Theorem subject_count_adds_up data locs template measure threshold calls h h' m :
  (m0 ← __init__ data locs template measure threshold None None None;
   update_all m0 calls) h = (h', Ok m) →
  n_subs m = Z.of_nat (length data
               + sum_list ((λ c : list (Brain.t Loc) * string * float,
                              length c.1.1) <$> calls)) ∧
  Supereeg.locs m = default (load_nifti template) locs.
Proof.
  unfold mbind at 1. unfold M_bind.
  destruct (__init__ data locs template measure threshold None None None h)
    as [h0 [m0|e]] eqn:Hinit; [|done].
  apply init_fit_result in Hinit as [Hsubs Hlocs].
  intros Hrun. apply update_all_counts in Hrun as [-> ->].
  split; [lia|done].
Qed.

(** A model fitted from no subject has the subject count zero, and its
    estimate, numerator / denominator, is NaN in every cell. *)
Theorem model_of_no_subject_knows_nothing locs template measure threshold bo h :
  ∃ h' mo q,
    __init__ [] locs template measure threshold None None None h = (h', Ok mo) ∧
    n_subs mo = 0%Z ∧
    model_estimate mo bo false h' = (h', Ok q) ∧
    ∀ i j, i < n_locs mo → j < n_locs mo →
           ∃ x, Np.cell q i j = Some x ∧ PrimFloat.is_nan x = true.
Proof.
  unfold __init__. simpl.
  set (l := match locs with None => load_nifti template | Some locs0 => locs0 end).
  unfold mbind, M_bind, mret, M_ret, lift, alloc. simpl.
  eexists _, _, _. split; [done|]. split; [done|].
  unfold model_estimate, mbind, M_bind, lift, read. simpl.
  assert (Hne : fresh (dom (<[fresh (dom h):=Np.zeros (length l) (length l)]> h))
                ≠ fresh (dom h)).
  { intros Heq.
    pose proof (fresh_not_in (<[fresh (dom h):=Np.zeros (length l) (length l)]> h)) as Hf.
    rewrite Heq in Hf. by rewrite lookup_insert_eq in Hf. }
  rewrite lookup_insert_ne, !lookup_insert_eq by done. simpl.
  destruct (elementwise_ok PrimFloat.div _ _ _ _
              (has_shape_zeros (length l) (length l))
              (has_shape_zeros (length l) (length l))) as [Hdiv _].
  unfold Np.divide. rewrite Hdiv. split; [done|].
  intros i j Hi Hj. unfold n_locs in Hi, Hj. simpl in Hi, Hj.
  rewrite cell_map2, cell_zeros_lt by done. simpl. by eexists.
Qed.

End update_composition.

Section examples_update_composition.
Import Supereeg Examples.

Lemma update_without_subjects_copies_witness :
  ∃ h' m',
    update model_ABC [] "kurtosis" 10 store_ABC = (h', Ok m') ∧
    h' !! numerator m' = Some [[0; 0.5; 0.25]; [0.5; 0; 0.75]; [0.25; 0.75; 0]]%float ∧
    h' !! denominator m' = Some [[0; 1; 1]; [1; 0; 1]; [1; 1; 0]]%float ∧
    store_ABC !! numerator m' = None ∧ store_ABC !! denominator m' = None ∧
    locs m' = locs model_ABC ∧ n_subs m' = n_subs model_ABC.
Proof.
  apply (update_without_subjects_copies (H := example_helpers)
           model_ABC "kurtosis" 10 store_ABC); reflexivity.
Defined.

Lemma update_in_one_call_or_two_witness :
  match (update model_ABC ([subject_AB] ++ [subject_BC]) "kurtosis" 10 store_ABC).2,
        ((m ← update model_ABC [subject_AB] "kurtosis" 10;
          update m [subject_BC] "kurtosis" 10) store_ABC).2 with
  | Ok m1, Ok m2 =>
      ∃ num' den',
        (update model_ABC ([subject_AB] ++ [subject_BC]) "kurtosis" 10 store_ABC).1
          !! numerator m1 = Some num' ∧
        ((m ← update model_ABC [subject_AB] "kurtosis" 10;
          update m [subject_BC] "kurtosis" 10) store_ABC).1 !! numerator m2 = Some num' ∧
        (update model_ABC ([subject_AB] ++ [subject_BC]) "kurtosis" 10 store_ABC).1
          !! denominator m1 = Some den' ∧
        ((m ← update model_ABC [subject_AB] "kurtosis" 10;
          update m [subject_BC] "kurtosis" 10) store_ABC).1 !! denominator m2 = Some den' ∧
        locs m1 = locs m2 ∧ n_subs m1 = n_subs m2
  | Raise e1, Raise e2 => e1 = e2
  | _, _ => False
  end.
Proof.
  apply (update_in_one_call_or_two (H := example_helpers)
           model_ABC [subject_AB] [subject_BC] "kurtosis" 10 store_ABC
           [[0; 0.5; 0.25]; [0.5; 0; 0.75]; [0.25; 0.75; 0]]%float
           [[0; 1; 1]; [1; 0; 1]; [1; 1; 0]]%float); reflexivity.
Defined.

Lemma subject_count_adds_up_witness :
  ∃ h' m,
    (m0 ← __init__ [subject_AB; subject_BC] (Some [A; B; C]) None "kurtosis" 10
                   None None None;
     update_all m0 [([subject_CA], "kurtosis"%string, 10%float);
                    ([subject_AB; subject_CAD], "kurtosis"%string, 10%float)]) ∅
      = (h', Ok m) ∧
    n_subs m = 5%Z ∧ locs m = [A; B; C].
Proof.
  eassert (Hrun : (m0 ← __init__ [subject_AB; subject_BC] (Some [A; B; C]) None
                                 "kurtosis" 10 None None None;
                   update_all m0 [([subject_CA], "kurtosis"%string, 10%float);
                                  ([subject_AB; subject_CAD], "kurtosis"%string,
                                   10%float)]) ∅ = (_, Ok _))
    by (vm_compute; reflexivity).
  eexists _, _. split; [exact Hrun|].
  exact (subject_count_adds_up (H := example_helpers) _ _ _ _ _ _ _ _ _ Hrun).
Defined.

End examples_update_composition.

(** ** The alignment, block by block *)

Section array_permutation_facts.

Implicit Types (A B C : ndarray) (inds : list nat).

Lemma cell_permute A inds C i j a b :
  Np.permute A inds = Ok C → inds !! i = Some a → inds !! j = Some b →
  Np.cell C i j = Np.cell A a b.
Proof.
  unfold Np.permute, Np.select_cols. intros Hperm Hi Hj.
  destruct (mapM (λ row : list float, mapM (row !!.) inds) A) as [C0|] eqn:HC0;
    simpl in Hperm; [|done].
  apply mapM_Some in HC0. apply iloc_Ok in Hperm.
  destruct (Forall2_lookup_l _ _ _ _ _ Hperm Hi) as (r' & Hr' & HC0a).
  destruct (Forall2_lookup_r _ _ _ _ _ HC0 HC0a) as (row & Hrow & Hmap).
  apply mapM_Some in Hmap.
  destruct (Forall2_lookup_l _ _ _ _ _ Hmap Hj) as (z & Hz & Hrowb).
  unfold Np.cell. rewrite Hr', Hrow. simpl. by rewrite Hz, Hrowb.
Qed.

Lemma column_select_cols A inds C k k0 :
  Np.select_cols A inds = Ok C → inds !! k = Some k0 →
  SuperEEG.column C k = SuperEEG.column A k0.
Proof.
  unfold Np.select_cols. intros Hsel Hk.
  destruct (mapM (λ row : list float, mapM (row !!.) inds) A) as [C0|] eqn:HC0;
    simplify_eq/=.
  apply mapM_Some in HC0. unfold SuperEEG.column.
  induction HC0 as [|row r' A C Hrow _ IH]; [done|].
  apply mapM_Some in Hrow.
  destruct (Forall2_lookup_l _ _ _ _ _ Hrow Hk) as (z & Hz & Hrowk).
  csimpl. rewrite Hz, Hrowk. simpl. by rewrite IH.
Qed.

Lemma cell_set_leading_block C B C' n i j :
  Np.has_shape n n B → Np.set_leading_block C B = Ok C' → i < n → j < n →
  Np.cell C' i j = Np.cell B i j.
Proof.
  intros [HlB HrB]%has_shape_rows. unfold Np.set_leading_block.
  case_bool_decide as Hok; [|done]. intros [= <-] Hi Hj.
  destruct Hok as (HlC & _ & _). rewrite HlB in *.
  destruct (lookup_lt_is_Some_2 B i) as [rb Hrb]; [lia|].
  destruct (lookup_lt_is_Some_2 (take n C) i) as [rc Hrc];
    [rewrite length_take; lia|].
  unfold Np.cell. rewrite lookup_app_l.
  2:{ rewrite length_zip_with, length_take. lia. }
  rewrite lookup_zip_with, Hrc. simpl. rewrite Hrb. simpl.
  rewrite lookup_app_l; [done|].
  rewrite Forall_forall in HrB. rewrite (HrB rb); [done|].
  by eapply list_elem_of_lookup_2.
Qed.

End array_permutation_facts.

Section alignment_blocks.
Import Supereeg.
Context {Loc : Type} `{EqDecision Loc} `{Helpers Loc}.
Context {Hshape : HelpersShape} {Hpredict : HelpersPredictShape}.

Implicit Types (self : Model Loc) (bo : Brain.t Loc) (l bl : list Loc).

Lemma filter_everything {X} (P : X → Prop) `{∀ x, Decision (P x)} (xs : list X) :
  (∀ x, x ∈ xs → P x) → filter P xs = xs.
Proof.
  induction xs as [|x xs IH]; intros Hall; [done|].
  rewrite filter_cons_True by (apply Hall; by left).
  f_equal. apply IH. intros y Hy. apply Hall. by right.
Qed.

Lemma filter_nothing {X} (P : X → Prop) `{∀ x, Decision (P x)} (xs : list X) :
  (∀ x, x ∈ xs → ¬ P x) → filter P xs = [].
Proof.
  induction xs as [|x xs IH]; intros Hall; [done|].
  rewrite filter_cons_False by (apply Hall; by left).
  apply IH. intros y Hy. apply Hall. by right.
Qed.

Lemma subject_filters l bl :
  filter (λ x, ¬ negb (bool_decide (x ∈ l)) = true) bl = subject_inside l bl ∧
  filter (λ x, negb (bool_decide (x ∈ l)) = true) bl = subject_outside l bl.
Proof.
  unfold subject_inside, subject_outside. split; apply list_filter_iff; intros x.
  - rewrite negb_true_iff, bool_decide_eq_false.
    destruct (decide (x ∈ l)); tauto.
  - by rewrite negb_true_iff, bool_decide_eq_false.
Qed.

Lemma any_fmap_true {X} (f : X → bool) (xs : list X) :
  any_ (f <$> xs) = true → ∃ x, x ∈ xs ∧ f x = true.
Proof.
  unfold any_. induction xs as [|y xs IH]; csimpl; [done|].
  intros [Hy|Hxs]%orb_true_iff.
  - exists y. split; [by left|done].
  - destruct (IH Hxs) as (x & Hx & Hfx). exists x. split; [by right|done].
Qed.

Lemma joint_inside_length l bl :
  NoDup l → NoDup bl → length (joint_of bl l) = length (subject_inside l bl).
Proof.
  intros Hl Hbl. apply Permutation_length, NoDup_Permutation.
  - by apply NoDup_filter.
  - by apply NoDup_filter.
  - intros x. rewrite elem_of_joint_of. unfold subject_inside.
    rewrite list_elem_of_filter. tauto.
Qed.

Lemma permuted_cells l c perm pl cp i j a b x y :
  NoDup l → Np.iloc l perm = Ok pl → Np.permute c perm = Ok cp →
  pl !! i = Some x → pl !! j = Some y → l !! a = Some x → l !! b = Some y →
  Np.cell cp i j = Np.cell c a b.
Proof.
  intros Hl Hpl%iloc_Ok Hcp Hi Hj Ha Hb.
  destruct (Forall2_lookup_r _ _ _ _ _ Hpl Hi) as (a' & Hia & Ha').
  destruct (Forall2_lookup_r _ _ _ _ _ Hpl Hj) as (b' & Hjb & Hb').
  rewrite (NoDup_lookup l a a' x Hl Ha Ha'), (NoDup_lookup l b b' y Hl Hb Hb').
  by eapply cell_permute.
Qed.

(** what the alignment yields, in all three branches *)
Lemma align_spec self bo c :
  Np.has_shape (n_locs self) (n_locs self) c →
  NoDup (locs self) → NoDup (Brain.locs bo) →
  Forall (λ row : list float, length row = length (Brain.locs bo)) (Brain.data bo) →
  all_ (count_overlapping self bo) = false →
  ∃ al,
    align self bo c = Ok al ∧
    axis_locs al = unknown_of (Brain.locs bo) (locs self)
                   ++ joint_of (Brain.locs bo) (locs self)
                   ++ subject_outside (locs self) (Brain.locs bo) ∧
    Brain.locs (aligned_bo al)
      = subject_inside (locs self) (Brain.locs bo)
        ++ subject_outside (locs self) (Brain.locs bo) ∧
    (∀ k x, Brain.locs (aligned_bo al) !! k = Some x →
            ∃ k0, Brain.locs bo !! k0 = Some x ∧
                  SuperEEG.column (Brain.data (aligned_bo al)) k
                  = SuperEEG.column (Brain.data bo) k0) ∧
    ((∃ x, x ∈ locs self ∧ x ∈ Brain.locs bo) →
     ∀ i j a b x y,
       i < n_locs self → j < n_locs self →
       axis_locs al !! i = Some x → axis_locs al !! j = Some y →
       locs self !! a = Some x → locs self !! b = Some y →
       Np.cell (model_corrmat_x al) i j = Np.cell c a b) ∧
    perm_locs al
      = unknown_of (Brain.locs bo) (locs self)
        ++ (if decide (length (joint_of (Brain.locs bo) (locs self))
                       = length (Brain.locs bo)
                       ∧ joint_of (Brain.locs bo) (locs self) ≠ [])
            then joint_of (Brain.locs bo) (locs self)
            else Brain.locs (aligned_bo al)).
Proof.
  intros Hc Hl Hbl Hdata Hall. unfold align. rewrite Hall.
  set (l := locs self) in *. set (bl := Brain.locs bo) in *.
  unfold count_overlapping. fold l bl.
  destruct (any_ _) eqn:Hany; simpl.
  2:{ (* no overlap *)
    pose proof (any_fmap_false _ _ Hany) as Hnone.
    assert (Hdisj : ∀ x, x ∈ l → x ∉ bl).
    { intros x Hx. specialize (Hnone x Hx). by apply bool_decide_eq_false in Hnone. }
    destruct (expand_predict_shape c (rbf (l ++ bl) l)) as [Hn Hd].
    destruct (expand_corrmat_predict c (rbf (l ++ bl) l)) as [nx dx]. simpl in Hn, Hd.
    destruct (elementwise_ok PrimFloat.div _ _ nx dx Hn Hd) as [Hdiv _].
    unfold Np.divide. rewrite Hdiv. simpl.
    eexists. split; [done|]. simpl.
    assert (HU : unknown_of bl l = l).
    { apply filter_everything. intros x Hx. rewrite bool_decide_eq_true. auto. }
    assert (HJ : joint_of bl l = []).
    { apply filter_nothing. intros x Hx. rewrite bool_decide_eq_true. auto. }
    assert (HI : subject_inside l bl = []).
    { apply filter_nothing. intros x Hx Hxl. by apply (Hdisj x). }
    assert (HO : subject_outside l bl = bl).
    { apply filter_everything. intros x Hx Hxl. by apply (Hdisj x). }
    rewrite HU, HJ, HI, HO. simpl.
    split; [done|]. split; [done|]. split; [by eauto|].
    split; [intros (x & Hx & Hx'); by destruct (Hdisj x)|].
    rewrite decide_False; [done|]. by intros [_ ?]. }
  pose proof (perm_inds_iloc bl l) as Hperm.
  pose proof (perm_inds_length bl l) as Hplen.
  pose proof (iloc_in_range _ _ _ Hperm) as Hrange.
  set (perm_inds := sorted_range_minus (length l) _ ++ sorted_set _) in *.
  destruct (permute_ok _ c perm_inds Hc Hrange) as (cp & Hcp & Hscp).
  rewrite sum_fmap_filter. fold (joint_of bl l).
  assert (HUJ : length (unknown_of bl l ++ joint_of bl l) = length l)
    by (by rewrite unknown_joint_perm).
  destruct (decide (length (joint_of bl l) = length bl)) as [Hsum|Hsum].
  - (* the subject inside the model *)
    rewrite Hcp. simpl. rewrite Hperm. simpl.
    pose proof (joint_of_perm bl l Hl Hbl Hsum) as HJ.
    assert (Hin : ∀ x, x ∈ bl → x ∈ l).
    { intros x Hx. rewrite <-HJ in Hx. by apply elem_of_joint_of in Hx as [? _]. }
    assert (HI : subject_inside l bl = bl) by (by apply filter_everything).
    assert (HO : subject_outside l bl = []).
    { apply filter_nothing. intros x Hx Hxl. by apply Hxl, Hin. }
    eexists. split; [done|]. simpl. rewrite HI, HO, !app_nil_r.
    split; [done|]. split; [done|]. split; [by eauto|]. split.
    + intros _ i j a b x y _ _ Hi Hj Ha Hb.
      by eapply (permuted_cells l c perm_inds).
    + rewrite decide_True; [done|]. split; [done|].
      destruct (any_fmap_true _ _ Hany) as (x & Hx & Hfx).
      intros Hnil. apply bool_decide_eq_true in Hfx.
      assert (Hxj : x ∈ joint_of bl l) by (by apply elem_of_joint_of).
      rewrite Hnil in Hxj. by apply elem_of_nil in Hxj.
  - (* partial overlap *)
    rewrite Hcp. simpl. rewrite Hperm. simpl.
    rewrite <-!list_fmap_compose.
    set (g := negb ∘ (λ x, bool_decide (x ∈ l))).
    pose proof (iloc_where g bl) as Hsub.
    pose proof (iloc_app _ _ _ _ _ (iloc_sorted_range_minus_where g bl)
                  (iloc_sorted_set_where g bl)) as Hbo.
    pose proof (iloc_in_range _ _ _ Hbo) as Hborange.
    destruct (subject_filters l bl) as [HI HO].
    unfold g in Hsub, Hbo. simpl in Hsub, Hbo. rewrite HO in Hsub. rewrite HI, HO in Hbo.
    fold g in Hsub, Hbo.
    rewrite Hsub. simpl. rewrite Hbo. simpl.
    set (bo_perm_inds := sorted_range_minus (length bl) _ ++ sorted_set _) in *.
    destruct (select_cols_ok (length (Brain.data bo)) (length bl) (Brain.data bo)
                bo_perm_inds) as (dp & Hdp & Hsdp); [by apply has_shape_rows|done|].
    rewrite Hdp. simpl.
    set (W := rbf _ _).
    destruct (expand_predict_shape cp W) as [Hn Hd].
    destruct (expand_corrmat_predict cp W) as [nx dx]. simpl in Hn, Hd.
    destruct (elementwise_ok PrimFloat.div _ _ nx dx Hn Hd) as [Hdiv Hsq].
    unfold Np.divide. rewrite Hdiv. simpl.
    assert (HW : length W = length perm_inds + length (subject_outside l bl)).
    { unfold W. by rewrite rbf_rows, length_app, HUJ, Hplen. }
    rewrite HW in Hsq.
    destruct (set_leading_block_ok _ _ _ cp Hsq Hscp) as (cb & Hcb).
    rewrite Hcb. simpl.
    pose proof (iloc_sorted_range_minus_where (λ x, bool_decide (x ∈ bl)) l) as Hunk.
    rewrite Hunk. simpl.
    eexists. split; [done|]. simpl.
    split; [by rewrite <-(assoc (++))|]. split; [done|]. split.
    + intros k x Hk. apply iloc_Ok in Hbo.
      destruct (Forall2_lookup_r _ _ _ _ _ Hbo Hk) as (k0 & Hk0 & Hx).
      exists k0. split; [done|]. by eapply column_select_cols.
    + split.
      * intros _ i j a b x y Hi Hj Hxi Hyj Ha Hb.
        unfold n_locs in Hi, Hj. fold l in Hi, Hj.
        rewrite lookup_app_l in Hxi by (rewrite HUJ; lia).
        rewrite lookup_app_l in Hyj by (rewrite HUJ; lia).
        rewrite (cell_set_leading_block _ cp cb (length perm_inds) i j Hscp Hcb)
          by (rewrite Hplen; lia).
        by eapply (permuted_cells l c perm_inds).
      * rewrite decide_False; [done|]. by intros [? _].
Qed.

(** The blocks of the aligned matrix and the channels of the subject.  For
    location sets without duplicates, in every branch of the alignment the
    rows and columns of the aligned matrix stand for the unknown locations
    of the model, then the joint locations in the order of the model, then
    the locations of the subject outside the model; the channels of the
    subject end as its locations inside the model followed by those outside,
    both in the order of the subject.  So the known block and the channels
    agree exactly when the joint locations come in the same order in the
    model and in the subject.  The returned ordering is the unknown
    locations followed by the channels of the subject, except in the branch
    of the subject inside the model, where it follows the model. *)
Theorem alignment_orders_the_blocks self bo c :
  Np.has_shape (n_locs self) (n_locs self) c →
  NoDup (locs self) → NoDup (Brain.locs bo) →
  Forall (λ row : list float, length row = length (Brain.locs bo)) (Brain.data bo) →
  all_ (count_overlapping self bo) = false →
  ∃ al,
    align self bo c = Ok al ∧
    axis_locs al = unknown_of (Brain.locs bo) (locs self)
                   ++ joint_of (Brain.locs bo) (locs self)
                   ++ subject_outside (locs self) (Brain.locs bo) ∧
    Brain.locs (aligned_bo al)
      = subject_inside (locs self) (Brain.locs bo)
        ++ subject_outside (locs self) (Brain.locs bo) ∧
    known_block al = joint_of (Brain.locs bo) (locs self)
                     ++ subject_outside (locs self) (Brain.locs bo) ∧
    (known_block al = Brain.locs (aligned_bo al) ↔
     joint_of (Brain.locs bo) (locs self)
       = subject_inside (locs self) (Brain.locs bo)) ∧
    perm_locs al
      = unknown_of (Brain.locs bo) (locs self)
        ++ (if decide (length (joint_of (Brain.locs bo) (locs self))
                       = length (Brain.locs bo)
                       ∧ joint_of (Brain.locs bo) (locs self) ≠ [])
            then joint_of (Brain.locs bo) (locs self)
            else Brain.locs (aligned_bo al)).
Proof.
  intros Hc Hl Hbl Hdata Hall.
  destruct (align_spec self bo c Hc Hl Hbl Hdata Hall)
    as (al & Hal & Haxis & Hchan & _ & _ & Hperm).
  exists al. split; [done|]. split; [done|]. split; [done|].
  assert (Hknown : known_block al
                   = joint_of (Brain.locs bo) (locs self)
                     ++ subject_outside (locs self) (Brain.locs bo)).
  { unfold known_block. rewrite Haxis, Hchan. apply drop_app_length'.
    rewrite !length_app, (joint_inside_length _ _ Hl Hbl). lia. }
  split; [done|]. split; [|done].
  rewrite Hknown, Hchan. split; [apply app_inv_tail | by intros ->].
Qed.


(** Where the subject shares a location with the model, the leading block of
    the aligned matrix is the estimate of the model, rows and columns
    rearranged together: the cell of two model locations in the aligned
    matrix is the cell of these two locations in the estimate. *)
Theorem aligned_block_is_the_estimate self bo c :
  Np.has_shape (n_locs self) (n_locs self) c →
  NoDup (locs self) → NoDup (Brain.locs bo) →
  Forall (λ row : list float, length row = length (Brain.locs bo)) (Brain.data bo) →
  all_ (count_overlapping self bo) = false →
  (∃ x, x ∈ locs self ∧ x ∈ Brain.locs bo) →
  ∃ al,
    align self bo c = Ok al ∧
    ∀ i j a b x y,
      i < n_locs self → j < n_locs self →
      axis_locs al !! i = Some x → axis_locs al !! j = Some y →
      locs self !! a = Some x → locs self !! b = Some y →
      Np.cell (model_corrmat_x al) i j = Np.cell c a b.
Proof.
  intros Hc Hl Hbl Hdata Hall Hover.
  destruct (align_spec self bo c Hc Hl Hbl Hdata Hall)
    as (al & Hal & _ & _ & _ & Hcells & _).
  exists al. split; [done|]. by apply Hcells.
Qed.

End alignment_blocks.

Section examples_alignment_blocks.
Import Supereeg Examples.

Lemma alignment_orders_the_blocks_witness :
  ∃ al,
    align model_ABC subject_CAD estimate_ABC = Ok al ∧
    axis_locs al = unknown_of (Brain.locs subject_CAD) (locs model_ABC)
                   ++ joint_of (Brain.locs subject_CAD) (locs model_ABC)
                   ++ subject_outside (locs model_ABC) (Brain.locs subject_CAD) ∧
    Brain.locs (aligned_bo al)
      = subject_inside (locs model_ABC) (Brain.locs subject_CAD)
        ++ subject_outside (locs model_ABC) (Brain.locs subject_CAD) ∧
    known_block al = joint_of (Brain.locs subject_CAD) (locs model_ABC)
                     ++ subject_outside (locs model_ABC) (Brain.locs subject_CAD) ∧
    (known_block al = Brain.locs (aligned_bo al) ↔
     joint_of (Brain.locs subject_CAD) (locs model_ABC)
       = subject_inside (locs model_ABC) (Brain.locs subject_CAD)) ∧
    perm_locs al
      = unknown_of (Brain.locs subject_CAD) (locs model_ABC)
        ++ (if decide (length (joint_of (Brain.locs subject_CAD) (locs model_ABC))
                       = length (Brain.locs subject_CAD)
                       ∧ joint_of (Brain.locs subject_CAD) (locs model_ABC) ≠ [])
            then joint_of (Brain.locs subject_CAD) (locs model_ABC)
            else Brain.locs (aligned_bo al)).
Proof.
  apply (alignment_orders_the_blocks (H := example_helpers)
           (Hshape := example_helpers_shape)
           (Hpredict := helpers_with_predict_shape _)
           model_ABC subject_CAD estimate_ABC).
  - reflexivity.
  - by_evaluation.
  - by_evaluation.
  - by_evaluation.
  - reflexivity.
Defined.


Lemma aligned_block_is_the_estimate_witness :
  ∃ al,
    align model_ABC subject_CAD estimate_ABC = Ok al ∧
    ∀ i j a b x y,
      i < n_locs model_ABC → j < n_locs model_ABC →
      axis_locs al !! i = Some x → axis_locs al !! j = Some y →
      locs model_ABC !! a = Some x → locs model_ABC !! b = Some y →
      Np.cell (model_corrmat_x al) i j = Np.cell estimate_ABC a b.
Proof.
  apply (aligned_block_is_the_estimate (H := example_helpers)
           (Hshape := example_helpers_shape)
           (Hpredict := helpers_with_predict_shape _)
           model_ABC subject_CAD estimate_ABC).
  - reflexivity.
  - by_evaluation.
  - by_evaluation.
  - by_evaluation.
  - reflexivity.
  - exists A. split; by_evaluation.
Defined.

End examples_alignment_blocks.

(** ** [plot] on a model that satisfies the invariant *)

Section plot_facts.
Import Supereeg.
Context {Loc : Type} `{EqDecision Loc} `{Helpers Loc}.

Implicit Types (h : gmap positive ndarray) (self : Model Loc).

Lemma symmetric_map_cells f A : Np.symmetric A → Np.symmetric (Np.map_cells f A).
Proof. intros HA i j. by rewrite !cell_map_cells, (HA i j). Qed.

Lemma symmetric_fill_diagonal A v :
  Np.symmetric A → Np.symmetric (Np.fill_diagonal A v).
Proof.
  intros HA i j. destruct (decide (i = j)) as [->|Hij]; [done|].
  rewrite !cell_fill_diagonal_ne by done. apply HA.
Qed.

Lemma has_shape_map_cells f n m A :
  Np.has_shape n m A → Np.has_shape n m (Np.map_cells f A).
Proof.
  unfold Np.has_shape, Np.row_lengths, Np.map_cells. intros <-.
  rewrite <- list_fmap_compose. apply list_fmap_ext. intros _ row _. simpl.
  apply length_fmap.
Qed.

Lemma has_shape_fill_diagonal v n m A :
  Np.has_shape n m A → Np.has_shape n m (Np.fill_diagonal A v).
Proof.
  unfold Np.has_shape, Np.row_lengths, Np.fill_diagonal. intros <-.
  apply list_eq. intros i. rewrite !list_lookup_fmap, list_lookup_imap.
  destruct (A !! i) as [row|]; simpl; [|done]. by rewrite length_insert.
Qed.

(** For a model whose arrays are square and symmetric, the matrix that [plot]
    hands to the heat map is square of the size of the location set and
    symmetric, and the arrays of the model are left as they were. *)
Theorem plot_hands_a_symmetric_matrix self h :
  model_invariant h self →
  ∃ corr_mat,
    plot self h = (h, Ok corr_mat) ∧
    Np.has_shape (n_locs self) (n_locs self) corr_mat ∧
    Np.symmetric corr_mat.
Proof.
  intros (num & den & Hn & Hd & (Hsn & Hyn & _) & (Hsd & Hyd & _)).
  destruct (elementwise_ok PrimFloat.div _ _ num den Hsn Hsd) as [Hdiv Hsq].
  exists (Np.fill_diagonal (Np.map_cells z2r (Np.map2 PrimFloat.div num den)) 1).
  split; [|split].
  - unfold plot, mbind, M_bind, mret, M_ret, lift, read. simpl.
    rewrite Hn, Hd. simpl. unfold Np.divide. by rewrite Hdiv.
  - by apply has_shape_fill_diagonal, has_shape_map_cells.
  - by apply symmetric_fill_diagonal, symmetric_map_cells, symmetric_map2.
Qed.

(** *** The name of the file that [save] writes *)

Lemma list_ascii_of_string_app (a b : string) :
  String.list_ascii_of_string (a +:+ b)
  = String.list_ascii_of_string a ++ String.list_ascii_of_string b.
Proof. induction a as [|c a IH]; simpl; [done|]. by rewrite IH. Qed.

Lemma py_suffix_app (a b : string) :
  py_suffix (String.length b) (a +:+ b) = b.
Proof.
  unfold py_suffix. rewrite list_ascii_of_string_app, length_app.
  assert (Hb : length (String.list_ascii_of_string b) = String.length b).
  { clear. induction b as [|c b IH]; simpl; [done|]. by rewrite IH. }
  rewrite Hb. replace (_ + _ - _) with (length (String.list_ascii_of_string a)) by lia.
  rewrite drop_app_length. apply String.string_of_list_ascii_of_string.
Qed.

Lemma save_name_suffix (fname : string) : py_suffix 3 (save_name fname) = ".mo"%string.
Proof.
  unfold save_name. destruct (decide (py_suffix 3 fname ≠ ".mo"%string)) as [Hne|He].
  - apply (py_suffix_app fname ".mo").
  - by destruct (decide (py_suffix 3 fname = ".mo"%string)).
Qed.

Lemma string_length_app (a b : string) :
  String.length (a +:+ b) = String.length a + String.length b.
Proof. induction a as [|c a IH]; simpl; [done|]. by rewrite IH. Qed.

(** The file that [save] writes always has a name that ends in [.mo]: the
    given name when it ends so, and the given name followed by [.mo] when it
    does not; a name that [save] has produced is kept as it is.  The
    dictionary holds the arrays, the locations and the subject count of the
    model, and the arrays of the model are left as they were. *)
Theorem save_writes_a_mo_file self fname h num den :
  h !! numerator self = Some num → h !! denominator self = Some den →
  save self fname h
    = (h, Ok (save_name fname, mkSaved num den (locs self) (n_subs self))) ∧
  py_suffix 3 (save_name fname) = ".mo"%string ∧
  (save_name fname = fname ↔ py_suffix 3 fname = ".mo"%string) ∧
  (save_name fname = fname ∨ save_name fname = fname +:+ ".mo") ∧
  save_name (save_name fname) = save_name fname.
Proof.
  intros Hn Hd. split; [|split; [|split; [|split]]].
  - unfold save, mbind, M_bind, mret, M_ret, read. simpl. by rewrite Hn, Hd.
  - apply save_name_suffix.
  - unfold save_name.
    destruct (decide (py_suffix 3 fname ≠ ".mo"%string)) as [Hne|He].
    + split; [|done]. intros Heq. apply (f_equal String.length) in Heq.
      rewrite string_length_app in Heq. simpl in Heq. lia.
    + split; [|done]. intros _. by destruct (decide (py_suffix 3 fname = ".mo"%string)).
  - unfold save_name. destruct (decide _); auto.
  - pose proof (save_name_suffix fname) as Hs.
    unfold save_name at 1. by rewrite decide_False by (by intros ?).
Qed.

End plot_facts.

Section examples_plot_and_save.
Import Supereeg Examples.

Lemma model_ABC_invariant : model_invariant store_ABC model_ABC.
Proof.
  eexists _, _. split; [reflexivity|]. split; [reflexivity|].
  split; (split; [reflexivity|]; split).
  - intros [|[|[|i]]] [|[|[|j]]]; reflexivity.
  - intros [|[|[|i]]] x; simpl; intros [= <-]; by left.
  - intros [|[|[|i]]] [|[|[|j]]]; reflexivity.
  - intros [|[|[|i]]] x; simpl; intros [= <-]; by left.
Qed.

Lemma plot_hands_a_symmetric_matrix_witness :
  ∃ corr_mat,
    plot model_ABC store_ABC = (store_ABC, Ok corr_mat) ∧
    Np.has_shape (n_locs model_ABC) (n_locs model_ABC) corr_mat ∧
    Np.symmetric corr_mat.
Proof.
  apply (plot_hands_a_symmetric_matrix (H := example_helpers) model_ABC store_ABC).
  apply model_ABC_invariant.
Defined.

Lemma save_writes_a_mo_file_witness :
  save model_ABC "average" store_zeros
    = (store_zeros,
       Ok (save_name "average",
           mkSaved (Np.zeros 3 3) (Np.zeros 3 3) (locs model_ABC) (n_subs model_ABC))) ∧
  py_suffix 3 (save_name "average") = ".mo"%string ∧
  (save_name "average" = "average"%string ↔ py_suffix 3 "average" = ".mo"%string) ∧
  (save_name "average" = "average"%string
   ∨ save_name "average" = ("average" +:+ ".mo")%string) ∧
  save_name (save_name "average") = save_name "average".
Proof.
  apply (save_writes_a_mo_file model_ABC "average" store_zeros); reflexivity.
Defined.

End examples_plot_and_save.

(** ** The constructor of [Brain]: sessions and sample rates *)

Section brain_construction.
Import SuperEEG.
Variable kurt_vals : Brain → list float.

Lemma remove_dups_replicate {A : Type} `{EqDecision A} (n : nat) (x : A) :
  remove_dups (replicate (S n) x) = [x].
Proof.
  induction n as [|n IH]; [done|].
  change (replicate (S (S n)) x) with (x :: replicate (S n) x).
  simpl remove_dups. destruct (decide_rel _ _ _) as [_|Hn]; [exact IH|].
  exfalso. apply Hn. left.
Qed.

(** When the sessions are given as one label, or not at all, every sample
    belongs to the same session: an object that the constructor returns has
    one session entry per sample, and its session count is 1, or 0 for a
    recording without samples. *)
Theorem brain_counts_one_session data locs sess sample_rate s bo :
  sess = SessionsOne s ∨ (sess = SessionsNone ∧ s = SessionInt 1) →
  (__init__ kurt_vals data locs sess sample_rate).2 = Ok bo →
  sessions bo = replicate (shape0 (SuperEEG.data bo)) s ∧
  n_sessions bo = (if decide (shape0 (SuperEEG.data bo) = 0) then 0 else 1).
Proof.
  intros Hsess. unfold __init__.
  destruct (DataFrame_xyz locs) as [self_locs|e]; [|done].
  assert (Hseries : session_series (shape0 (DataFrame data)) sess
                    = Ok (replicate (shape0 (DataFrame data)) s))
    by (by destruct Hsess as [->|[-> ->]]).
  rewrite Hseries.
  destruct (sample_rates _ sample_rate) as [warnings rates]. simpl.
  destruct (first rates) as [r|e]; [|done]. simpl.
  destruct (true_divide _ r) as [secs|e]; [|done]. simpl.
  intros [= <-]. simpl. split; [done|].
  destruct (shape0 (DataFrame data)) as [|n]; [done|].
  by rewrite remove_dups_replicate.
Qed.

(** Sessions given as a python list are never accepted: the constructor ends
    in an exception before any warning, a [ValueError] of the locations or
    the [AttributeError] of the list, whatever the other arguments are. *)
Theorem brain_init_rejects_a_list_of_sessions data locs l sample_rate :
  ∃ e, __init__ kurt_vals data locs (SessionsList l) sample_rate = ([], Raise e) ∧
       (e = ValueError ∨ e = AttributeError) ∧
       (e = ValueError ↔ DataFrame_xyz locs = Raise ValueError).
Proof.
  unfold __init__. destruct (DataFrame_xyz locs) as [self_locs|e] eqn:Hlocs.
  - simpl. exists AttributeError. split; [done|]. split; [by right|]. split; done.
  - exists e. split; [done|].
    assert (e = ValueError) as ->.
    { unfold DataFrame_xyz in Hlocs. destruct locs as [rows|]; [|done].
      destruct (bool_decide _); by simplify_eq. }
    split; [by left|done].
Qed.

End brain_construction.

Section examples_brain_construction.
Import SuperEEG Examples.

Lemma brain_counts_one_session_witness :
  ∃ bo,
    (__init__ kurt_vals_spec (Some two_channels) (Some three_locations)
              (SessionsOne (SessionStr "day1")) (RateNumber 1000)).2 = Ok bo ∧
    sessions bo = replicate (shape0 (SuperEEG.data bo)) (SessionStr "day1") ∧
    n_sessions bo = (if decide (shape0 (SuperEEG.data bo) = 0) then 0 else 1).
Proof.
  eexists. split; [vm_compute; reflexivity|].
  apply (brain_counts_one_session kurt_vals_spec
           (Some two_channels) (Some three_locations)
           (SessionsOne (SessionStr "day1")) (RateNumber 1000) (SessionStr "day1")).
  - by left.
  - vm_compute. reflexivity.
Defined.

Lemma brain_init_default_rate_witness :
  ∃ b, __init__ kurt_vals_spec (Some two_channels) (Some three_locations)
                SessionsNone RateNone
         = (["No sample rate given.  Setting sample rate to 1000"%string], Ok b) ∧
       SuperEEG.sample_rate b
         = replicate (length (SessionInt 1 :: replicate 4 (SessionInt 1))) 1000%float ∧
       n_secs b = (float_of_nat (shape0 (DataFrame (Some two_channels))) / 1000)%float.
Proof.
  apply (brain_init_default_rate kurt_vals_spec (Some two_channels)
           (Some three_locations) SessionsNone three_locations
           (SessionInt 1) (replicate 4 (SessionInt 1))); reflexivity.
Defined.

End examples_brain_construction.

(** ** The driver: what a run may touch, and runs that follow each other *)

Section recon_runs.
Import Recon.

Implicit Types (s : surroundings) (w : world).

Ltac run_main :=
  unfold main, mbind, run_bind, mret, run_ret, np_load, isdir, isfile, mkdir,
    print, savemat; simpl.

Ltac run_cases :=
  repeat match goal with
         | |- context [bool_decide ?P] => destruct (bool_decide P) eqn:?; simpl
         | |- context [good_chans ?s ?f ?k] => destruct (good_chans s f k); simpl
         | |- context [decide ?P] => destruct (decide P); simpl
         end.

Lemma tested_file_is_not_outfile s file_name :
  tested_file s file_name ≠ outfile s file_name.
Proof.
  intros Heq. apply (f_equal String.length) in Heq.
  unfold tested_file, outfile, join in Heq.
  rewrite !string_length_app in Heq. simpl in Heq. lia.
Qed.

(** Whatever the arguments and the state of the file system, a run of the
    driver creates at most one file, its output [gif_df.mat], and at most one
    directory, that of the results; it removes nothing, saves at most once,
    and never creates the file whose presence it tests. *)
Theorem main_touches_only_its_output s fname file_name r k_thresh w :
  files w ⊆ files (main s fname file_name r k_thresh w).1 ∧
  files (main s fname file_name r k_thresh w).1
    ⊆ files w ∪ {[outfile s file_name]} ∧
  dirs w ⊆ dirs (main s fname file_name r k_thresh w).1 ∧
  dirs (main s fname file_name r k_thresh w).1
    ⊆ dirs w ∪ {[gif_dir s file_name]} ∧
  (saved (main s fname file_name r k_thresh w).1 = saved w ∨
   saved (main s fname file_name r k_thresh w).1
     = saved w ++ [outfile s file_name]) ∧
  (tested_file s file_name ∈ files (main s fname file_name r k_thresh w).1 →
   tested_file s file_name ∈ files w).
Proof.
  pose proof (tested_file_is_not_outfile s file_name) as Hne.
  run_main. run_cases; (repeat split; [..| auto |]);
    set_unfold; intuition (subst; auto).
Qed.

(** A run that goes through the pipeline leaves nothing that stops the next
    one: with the inputs in place, two channels or more, and the tested file
    absent, the driver saves its output, and a second run on the file system
    that the first one left saves the same output again, without a word. *)
Theorem main_repeats_its_work s fname file_name r k_thresh w R :
  fname ∈ files w →
  gif_dir s file_name ∉ files w →
  tested_file s file_name ∉ files w →
  sub_file s file_name ∈ files w →
  join (parent_dir s) loc_name ∈ files w →
  join (join (grand_parent_dir s) "ave_model")
       ("average_model" +:+ "_k_" +:+ k_thresh +:+ "_r_" +:+ r +:+ ".npz") ∈ files w →
  good_chans s (sub_file s file_name) k_thresh = Locations R →
  1 < length R →
  ∃ w1 w2,
    main s fname file_name r k_thresh w = (w1, Ok ()) ∧
    main s fname file_name r k_thresh w1 = (w2, Ok ()) ∧
    saved w1 = saved w ++ [outfile s file_name] ∧
    saved w2 = saved w ++ [outfile s file_name; outfile s file_name] ∧
    stdout w2 = stdout w.
Proof.
  intros Hfname Hdir Htested Hsub Hloc Have Hgood Hmany.
  pose proof (tested_file_is_not_outfile s file_name) as Hne.
  assert (Hrun : ∀ w0, fname ∈ files w0 → gif_dir s file_name ∉ files w0 →
            tested_file s file_name ∉ files w0 → sub_file s file_name ∈ files w0 →
            join (parent_dir s) loc_name ∈ files w0 →
            join (join (grand_parent_dir s) "ave_model")
              ("average_model" +:+ "_k_" +:+ k_thresh +:+ "_r_" +:+ r +:+ ".npz")
              ∈ files w0 →
            ∃ d, main s fname file_name r k_thresh w0
                 = (mkWorld ({[outfile s file_name]} ∪ files w0) d (stdout w0)
                            (saved w0 ++ [outfile s file_name]), Ok ())).
  { intros w0 H1 H2 H3 H4 H5 H6. unfold main. fold (sub_file s file_name).
    run_main. rewrite (bool_decide_eq_true_2 _ H1). simpl.
    destruct (bool_decide (gif_dir s file_name ∈ dirs w0)) eqn:Hd; simpl.
    - rewrite (bool_decide_eq_false_2 _ H3). simpl.
      rewrite (bool_decide_eq_true_2 _ H4). simpl.
      rewrite Hgood, decide_True by done. simpl.
      rewrite (bool_decide_eq_true_2 _ H5). simpl.
      rewrite (bool_decide_eq_true_2 _ H6). simpl. by eexists.
    - rewrite bool_decide_eq_false_2.
      2:{ apply bool_decide_eq_false in Hd. tauto. }
      simpl. rewrite (bool_decide_eq_false_2 _ H3). simpl.
      rewrite (bool_decide_eq_true_2 _ H4). simpl.
      rewrite Hgood, decide_True by done. simpl.
      rewrite (bool_decide_eq_true_2 _ H5). simpl.
      rewrite (bool_decide_eq_true_2 _ H6). simpl. by eexists. }
  destruct (Hrun w Hfname Hdir Htested Hsub Hloc Have) as [d1 Hw1].
  assert (Hout : gif_dir s file_name ≠ outfile s file_name).
  { intros Heq. apply (f_equal String.length) in Heq.
    unfold outfile, join in Heq. rewrite !string_length_app in Heq.
    simpl in Heq. lia. }
  edestruct (Hrun (mkWorld ({[outfile s file_name]} ∪ files w) d1 (stdout w)
                           (saved w ++ [outfile s file_name]))) as [d2 Hw2];
    simpl; [(set_unfold; intuition (subst; auto))..|].
  eexists _, _. split; [exact Hw1|]. split; [exact Hw2|]. simpl.
  split; [done|]. split; [|done]. by rewrite <- app_assoc.
Qed.

(** A run that cannot load the subject's matrix ends in an [IOError] after
    it has created the directory of the results: the directory is left
    behind, and nothing is saved or printed. *)
Theorem main_leaves_the_directory_of_a_failed_run s fname file_name r k_thresh w :
  fname ∈ files w →
  gif_dir s file_name ∉ dirs w → gif_dir s file_name ∉ files w →
  tested_file s file_name ∉ files w →
  sub_file s file_name ∉ files w →
  ∃ w', main s fname file_name r k_thresh w = (w', Raise IOError) ∧
        dirs w' = {[gif_dir s file_name]} ∪ dirs w ∧
        files w' = files w ∧ saved w' = saved w ∧ stdout w' = stdout w.
Proof.
  intros Hfname Hdir Hfile Htested Hsub. unfold main.
  fold (sub_file s file_name). run_main.
  rewrite (bool_decide_eq_true_2 _ Hfname). simpl.
  rewrite (bool_decide_eq_false_2 _ Hdir). simpl.
  rewrite bool_decide_eq_false_2 by tauto. simpl.
  rewrite (bool_decide_eq_false_2 _ Htested). simpl.
  rewrite (bool_decide_eq_false_2 _ Hsub). simpl. by eexists.
Qed.

End recon_runs.

Section examples_recon_runs.
Import Recon Examples.

Lemma main_repeats_its_work_witness :
  ∃ w1 w2,
    main three_channels "/data/s1.npz" "s1" "20" "10" first_run = (w1, Ok ()) ∧
    main three_channels "/data/s1.npz" "s1" "20" "10" w1 = (w2, Ok ()) ∧
    saved w1 = saved first_run ++ [outfile three_channels "s1"] ∧
    saved w2 = saved first_run
               ++ [outfile three_channels "s1"; outfile three_channels "s1"] ∧
    stdout w2 = stdout first_run.
Proof.
  apply (main_repeats_its_work three_channels "/data/s1.npz" "s1" "20" "10" first_run
           [[0; 0; 0]; [20; 0; 0]; [40; 0; 0]]%float).
  - by_evaluation.
  - by_evaluation.
  - by_evaluation.
  - by_evaluation.
  - by_evaluation.
  - by_evaluation.
  - reflexivity.
  - simpl. lia.
Defined.

Lemma main_leaves_the_directory_of_a_failed_run_witness :
  ∃ w', main three_channels "/data/s1.npz" "s1" "20" "10" lone_recording
        = (w', Raise IOError) ∧
        dirs w' = {[gif_dir three_channels "s1"]} ∪ dirs lone_recording ∧
        files w' = files lone_recording ∧ saved w' = saved lone_recording ∧
        stdout w' = stdout lone_recording.
Proof.
  apply (main_leaves_the_directory_of_a_failed_run three_channels
           "/data/s1.npz" "s1" "20" "10" lone_recording); by_evaluation.
Defined.

Lemma main_skips_on_tested_file_witness :
  ∃ w', main three_channels "/data/s1.npz" "s1" "20" "10" marked_run = (w', Ok ()) ∧
        files w' = files marked_run ∧ saved w' = saved marked_run ∧
        stdout w' = stdout marked_run ++ ["gif exists"%string].
Proof.
  apply (main_skips_on_tested_file three_channels
           "/data/s1.npz" "s1" "20" "10" marked_run); by_evaluation.
Defined.

Lemma main_saves_nothing_below_two_channels_witness :
  saved (main one_channel "/data/s1.npz" "s1" "20" "10" first_run).1
    = saved first_run ∧
  files (main one_channel "/data/s1.npz" "s1" "20" "10" first_run).1
    = files first_run.
Proof.
  apply (main_saves_nothing_below_two_channels one_channel
           "/data/s1.npz" "s1" "20" "10" first_run).
  simpl. lia.
Defined.


End examples_recon_runs.

(** ** The samples of a prediction *)

Section prediction_samples.
Import Supereeg.
Context {Loc : Type} `{EqDecision Loc} `{Helpers Loc}.
Context {Hpredict : HelpersPredictShape}.

Implicit Types (h : gmap positive ndarray) (self : Model Loc) (bo : Brain.t Loc).

Lemma select_cols_rows A inds C : Np.select_cols A inds = Ok C → length C = length A.
Proof.
  unfold Np.select_cols. destruct (mapM _ A) as [r|] eqn:Hr; [|done].
  intros [= <-]. apply mapM_Some, Forall2_length in Hr. done.
Qed.

Lemma align_keeps_the_samples self bo c al :
  align self bo c = Ok al →
  Brain.sessions (aligned_bo al) = Brain.sessions bo ∧
  Brain.sample_rate (aligned_bo al) = Brain.sample_rate bo ∧
  length (Brain.data (aligned_bo al)) = length (Brain.data bo).
Proof.
  unfold align. destruct (all_ _); [done|].
  destruct (negb _); [|destruct (decide _)]; unfold mbind, result_bind;
    repeat match goal with
           | |- match ?e with Ok _ => _ | Raise _ => _ end = _ → _ =>
               destruct e eqn:?; [|done]
           | |- (let '(_, _) := ?e in _) = _ → _ => destruct e
           end;
    intros [= <-]; simpl; try done.
  split; [done|]. split; [done|]. by eapply select_cols_rows.
Qed.

(** A prediction keeps the time axis of the subject it was given, as it is
    after the filter on the channels: the sessions and the sample rates are
    those of the subject, and the data have one row per sample. *)
Theorem predict_keeps_the_samples
    self bo nearest_neighbor match_threshold force_update kthreshold h h' bo_p :
  predict self bo nearest_neighbor match_threshold force_update kthreshold h
    = (h', Ok bo_p) →
  Brain.sessions bo_p
    = Brain.sessions (prepared self bo nearest_neighbor match_threshold kthreshold) ∧
  Brain.sample_rate bo_p
    = Brain.sample_rate (prepared self bo nearest_neighbor match_threshold kthreshold) ∧
  length (Brain.data bo_p)
    = length (Brain.data (prepared self bo nearest_neighbor match_threshold kthreshold)).
Proof.
  unfold predict. fold (prepared self bo nearest_neighbor match_threshold kthreshold).
  set (bo' := prepared _ _ _ _ _).
  unfold mbind at 1. unfold M_bind.
  destruct (model_estimate self bo' force_update h) as [h1 [c|e]]; [|done].
  unfold mbind, M_bind, lift.
  destruct (align self bo' c) as [al|e] eqn:Hal; [|done].
  destruct (align_keeps_the_samples _ _ _ _ Hal) as (Hs & Hr & Hd).
  unfold reconstruct, Np.hstack.
  destruct (decide _) as [Hlen|]; simpl; [|done].
  intros [= _ <-]. simpl. rewrite Hs, Hr. split; [done|]. split; [done|].
  rewrite length_zip_with, timeseries_recon_rows, zscore_rows. lia.
Qed.

End prediction_samples.

Section examples_prediction_samples.
Import Supereeg Examples.

Lemma predict_keeps_the_samples_witness :
  ∃ bo_p,
    predict model_ABC subject_CAD false Auto false 10 store_ABC = (store_ABC, Ok bo_p) ∧
    Brain.sessions bo_p
      = Brain.sessions (prepared model_ABC subject_CAD false Auto 10) ∧
    Brain.sample_rate bo_p
      = Brain.sample_rate (prepared model_ABC subject_CAD false Auto 10) ∧
    length (Brain.data bo_p)
      = length (Brain.data (prepared model_ABC subject_CAD false Auto 10)).
Proof.
  eassert (Hrun : predict model_ABC subject_CAD false Auto false 10 store_ABC
                  = (store_ABC, Ok _)) by (vm_compute; reflexivity).
  eexists. split; [exact Hrun|].
  exact (predict_keeps_the_samples (H := example_helpers)
           (Hpredict := helpers_with_predict_shape _) _ _ _ _ _ _ _ _ _ Hrun).
Defined.

End examples_prediction_samples.
